(** * The LDIF codec of abook (src/ldif.c)

    A shallow embedding of [str_parse_line], [str_getline],
    [put_type_and_value] and [ldif_type_and_value], and the properties of
    the codec stated in the specification; then the header fields of
    --add-email (src/abook.c): [set_email_fields], [mailaddr_prefix] and
    the loop of [add_email_list].

    Conventions.
    - A byte in memory is a [Z] in [0, 256).  Plain [char] is signed, as on
      the platforms abook is built for: [char_of] reads a byte as a [char],
      [to_byte] stores an [int] into a [char].
    - A C string is the list of the bytes before its terminating NUL
      ([c_str]); reading the position just after the last byte of a list
      yields the terminator.
    - [int] is 32 bits wide and [size_t] 64 bits; the wrap-around is
      written out where the source computes sizes.
    - The output pointer [*out] of the encoder is modelled by the list of
      the bytes between the start of the buffer and [*out]. *)

From stdpp Require Import base numbers list strings.

Local Open Scope Z_scope.

(** ** Characters *)

Definition bytes_of (s : string) : list Z :=
  map (fun c => Z.of_N (Ascii.N_of_ascii c)) (String.list_ascii_of_string s).

Definition NUL : Z := 0.
Definition NEWLINE : Z := 10.
Definition SPACE : Z := 32.
Definition COLON : Z := 58.
Definition EQUALS : Z := 61.

Definition is_byte (b : Z) : Prop := 0 <= b < 256.

(** [(char) b] and the store of an [int] into a [char]. *)
Definition char_of (b : Z) : Z := if b <? 128 then b else b - 256.
Definition to_byte (v : Z) : Z := v mod 256.

(** <ctype.h> in the "C" locale; the argument is an [unsigned char]. *)
Definition isspace (c : Z) : bool := (c =? 32) || ((9 <=? c) && (c <=? 13)).
Definition isprint (c : Z) : bool := (32 <=? c) && (c <=? 126).
(** [#define isascii(c) (((c) & ~0x7f) == 0)] *)
Definition isascii (c : Z) : bool := Z.land c (Z.lnot 0x7f) =? 0.

(** [#define ISSPACE(c) isspace((unsigned char)c)] *)
Definition ISSPACE (c : Z) : bool := isspace (c mod 256).

(** The bytes of the C string stored at the start of [mem]. *)
Fixpoint c_str (mem : list Z) : list Z :=
  match mem with
  | [] => []
  | c :: m => if c =? NUL then [] else c :: c_str m
  end.

(** ** Constants and tables *)

Definition LDIF_LINE_WIDTH : Z := 76.
Definition RIGHT2 : Z := 0x03.
Definition RIGHT4 : Z := 0x0f.
Definition CONTINUED_LINE_MARKER : Z := 1.

Definition nib2b64 : list Z :=
  bytes_of "ABCDEFGHIJKLMNOPQRSTUVWXYZabcdefghijklmnopqrstuvwxyz0123456789+/".

Definition b642nib : list Z :=
  [ 0xff; 0xff; 0xff; 0xff; 0xff; 0xff; 0xff; 0xff;
    0xff; 0xff; 0xff; 0xff; 0xff; 0xff; 0xff; 0xff;
    0xff; 0xff; 0xff; 0xff; 0xff; 0xff; 0xff; 0xff;
    0xff; 0xff; 0xff; 0xff; 0xff; 0xff; 0xff; 0xff;
    0xff; 0xff; 0xff; 0xff; 0xff; 0xff; 0xff; 0xff;
    0xff; 0xff; 0xff; 0x3e; 0xff; 0xff; 0xff; 0x3f;
    0x34; 0x35; 0x36; 0x37; 0x38; 0x39; 0x3a; 0x3b;
    0x3c; 0x3d; 0xff; 0xff; 0xff; 0xff; 0xff; 0xff;
    0xff; 0x00; 0x01; 0x02; 0x03; 0x04; 0x05; 0x06;
    0x07; 0x08; 0x09; 0x0a; 0x0b; 0x0c; 0x0d; 0x0e;
    0x0f; 0x10; 0x11; 0x12; 0x13; 0x14; 0x15; 0x16;
    0x17; 0x18; 0x19; 0xff; 0xff; 0xff; 0xff; 0xff;
    0xff; 0x1a; 0x1b; 0x1c; 0x1d; 0x1e; 0x1f; 0x20;
    0x21; 0x22; 0x23; 0x24; 0x25; 0x26; 0x27; 0x28;
    0x29; 0x2a; 0x2b; 0x2c; 0x2d; 0x2e; 0x2f; 0x30;
    0x31; 0x32; 0x33; 0xff; 0xff; 0xff; 0xff; 0xff ].

(** [table[i]] for an index the source keeps in range. *)
Definition tbl (table : list Z) (i : Z) : Z := nth (Z.to_nat i) table 0.

(** ** Decoder: [str_parse_line] *)

Inductive parse_error : Set :=
  | MissingSeparator    (* "parse_line missing ':'" *)
  | MissingValue        (* "parse_line missing value" *)
  | InvalidBase64Char.  (* "invalid base 64 encoding char" *)

Inductive parse_result : Set :=
  | ParseOk (type value : list Z) (vlen : Z)
  | ParseErr (e : parse_error).

(** The [int] returned by [str_parse_line]. *)
Definition return_code (r : parse_result) : Z :=
  match r with ParseOk _ _ _ => 0 | ParseErr _ => -1 end.

(** [while(ISSPACE( *s)) s++;] *)
Fixpoint skip_space (s : list Z) : list Z :=
  match s with
  | c :: s' => if ISSPACE c then skip_space s' else s
  | [] => []
  end.

(** [for(s = line; *s && *s != ':'; s++);] : the bytes before [s], and the
    bytes from [s] on ([None] when [*s] is the terminator). *)
Fixpoint find_colon (line : list Z) : list Z * option (list Z) :=
  match line with
  | [] => ([], None)
  | c :: rest =>
      if c =? COLON then ([], Some line)
      else let '(pre, r) := find_colon rest in (c :: pre, r)
  end.

(** [for(p = s - 1; p > line && ISSPACE( *p); p--) *p = '\0';] followed by
    [*s++ = '\0']: the C string left at [line], given the bytes [pre]
    between [line] and [s].  [rtrim] walks back from the end; the byte at
    [line] itself is never overwritten. *)
Fixpoint rtrim (l : list Z) : list Z :=
  match l with
  | [] => []
  | c :: l' =>
      match rtrim l' with
      | [] => if ISSPACE c then [] else [c]
      | r => c :: r
      end
  end.

Definition trim_type (pre : list Z) : list Z :=
  match pre with
  | [] => []
  | c :: l => c :: rtrim l
  end.

(** [for(p = s, d = s; *p; p++) if( *p != CONTINUED_LINE_MARKER) *d++ = *p;] *)
Fixpoint strip_markers (s : list Z) : list Z :=
  match s with
  | [] => []
  | c :: s' =>
      if c =? CONTINUED_LINE_MARKER then strip_markers s'
      else c :: strip_markers s'
  end.

(** [p[i]] in the value buffer: index [length buf] holds the terminator. *)
Definition rd (buf : list Z) (i : nat) : Z := default NUL (buf !! i).

(** [p[i] != '=' && (p[i] & 0x80 || b642nib[p[i] & 0x7f] > 0x3f)] *)
Definition bad_b64_char (c : Z) : bool :=
  negb (c =? EQUALS) &&
  (negb (Z.land c 0x80 =? 0) || (0x3f <? tbl b642nib (Z.land c 0x7f))).

(** [nib = b642nib[c & 0x7f]] with [char nib]. *)
Definition nibble (c : Z) : Z := char_of (tbl b642nib (Z.land c 0x7f)).

Inductive group_outcome : Set :=
  | GroupBad                      (* return (-1) *)
  | GroupBreak (buf : list Z) (n : Z)  (* *vlen += n; break *)
  | GroupNext (buf : list Z).     (* byte += 3, then p += 4, *vlen += 3 *)

(** The body of the base64 loop, lines 135-169: [p] and [byte] are offsets
    into the value buffer [buf], which is decoded in place. *)
Definition b64_group (buf : list Z) (p byte : nat) : group_outcome :=
  if bad_b64_char (rd buf p) || bad_b64_char (rd buf (p + 1))
     || bad_b64_char (rd buf (p + 2))
  then GroupBad
  else
    (* first digit *)
    let nib := nibble (rd buf p) in
    let buf := <[byte := to_byte (Z.shiftl nib 2)]> buf in
    (* second digit *)
    let nib := nibble (rd buf (p + 1)) in
    let buf :=
      <[byte := to_byte (Z.lor (char_of (rd buf byte)) (Z.shiftr nib 4))]> buf in
    let buf :=
      <[(byte + 1)%nat := to_byte (Z.shiftl (Z.land nib RIGHT4) 4)]> buf in
    (* third digit *)
    if rd buf (p + 2) =? EQUALS then GroupBreak buf 1
    else
      let nib := nibble (rd buf (p + 2)) in
      let buf :=
        <[(byte + 1)%nat :=
            to_byte (Z.lor (char_of (rd buf (byte + 1))) (Z.shiftr nib 2))]> buf in
      let buf :=
        <[(byte + 2)%nat := to_byte (Z.shiftl (Z.land nib RIGHT2) 6)]> buf in
      (* fourth digit *)
      if rd buf (p + 3) =? EQUALS then GroupBreak buf 2
      else
        let nib := nibble (rd buf (p + 3)) in
        let buf :=
          <[(byte + 2)%nat :=
              to_byte (Z.lor (char_of (rd buf (byte + 2))) nib)]> buf in
        GroupNext buf.

(** [for(p = s, *vlen = 0; p < stop; p += 4, *vlen += 3)].  Every round
    moves [p] four bytes towards [stop], so [stop] rounds of fuel are never
    used up. *)
Fixpoint b64_loop (fuel : nat) (buf : list Z) (p byte : nat) (vlen : Z)
    (stop : nat) : option (list Z * Z) :=
  match fuel with
  | O => Some (buf, vlen)
  | S fuel' =>
      if (p <? stop)%nat then
        match b64_group buf p byte with
        | GroupBad => None
        | GroupBreak buf' n => Some (buf', vlen + n)
        | GroupNext buf' =>
            b64_loop fuel' buf' (p + 4) (byte + 3) (vlen + 3) stop
        end
      else Some (buf, vlen)
  end.

(** The [if(b64)] block, lines 132-171, on the compacted value [s]:
    [stop = strchr(s, '\0')], the loop, and [s[*vlen] = '\0']. *)
Definition b64_decode (s : list Z) : option (list Z * Z) :=
  let stop := length (c_str s) in
  match b64_loop (S stop) s 0 0 0 stop with
  | Some (buf, vlen) => Some (take (Z.to_nat vlen) buf, vlen)
  | None => None
  end.

Definition str_parse_line (line : list Z) : parse_result :=
  (* skip any leading space *)
  let line := skip_space (c_str line) in
  match find_colon line with
  | (_, None) => ParseErr MissingSeparator
  | (pre, Some []) => ParseErr MissingSeparator
  | (pre, Some (_ :: s)) =>
      (* trim any space between type and : *)
      let type := trim_type pre in
      (* check for double : *)
      let '(b64, s) :=
        match s with
        | c :: s' => if c =? COLON then (true, s') else (false, s)
        | [] => (false, s)
        end in
      (* skip space between : and value *)
      let s := skip_space s in
      match s with
      | [] => ParseErr MissingValue
      | _ =>
          let s := strip_markers s in
          if b64 then
            match b64_decode s with
            | Some (value, vlen) => ParseOk type value vlen
            | None => ParseErr InvalidBase64Char
            end
          else ParseOk type s (Z.of_nat (length s))
      end
  end.

(** ** Line joiner: [str_getline] (compiled out in abook, lines 179-221)

    The contract of the reader that hands logical lines to
    [str_parse_line]: a newline followed by a white space character other
    than a newline is a fold, and both bytes become
    [CONTINUED_LINE_MARKER]. *)

(** The [while] loop on the C string at [*next]: the line [l], and the
    bytes left at [*next] ([None] for a NULL pointer). *)
Fixpoint getline_scan (s : list Z) : list Z * option (list Z) :=
  match s with
  | [] => ([], None)
  | c :: tl =>
      if c =? NEWLINE then
        match tl with
        | c' :: tl' =>
            if ISSPACE c' && negb (c' =? NEWLINE) then
              let '(l, r) := getline_scan tl' in
              (CONTINUED_LINE_MARKER :: CONTINUED_LINE_MARKER :: l, r)
            else ([], Some tl)
        | [] => ([], Some [])
        end
      else let '(l, r) := getline_scan tl in (c :: l, r)
  end.

Definition str_getline (next : option (list Z))
    : option (list Z * option (list Z)) :=
  match next with
  | None => None
  | Some mem =>
      match c_str mem with
      | [] => None
      | c :: s => if c =? NEWLINE then None else Some (getline_scan (c :: s))
      end
  end.

(** ** Encoder: [put_type_and_value] *)

(** [for(p = (unsigned char * ) t; *p; p++, len++) *( *out)++ = *p;] *)
Fixpoint put_type (t : list Z) (out : list Z) (len : Z) : list Z * Z :=
  match t with
  | [] => (out, len)
  | c :: t' =>
      if c =? NUL then (out, len) else put_type t' (out ++ [c]) (len + 1)
  end.

(** [if(len > LDIF_LINE_WIDTH) { *( *out)++ = '\n'; *( *out)++ = ' '; len = 1; }]
    (the same three lines in each of the three output loops). *)
Definition fold_check (out : list Z) (len : Z) : list Z * Z :=
  if len >? LDIF_LINE_WIDTH then (out ++ [NEWLINE; SPACE], 1) else (out, len).

(** The plain loop, lines 248-260: the flag [b64], [*out] and [len]. *)
Fixpoint plain_loop (bytes : list Z) (out : list Z) (len : Z)
    : bool * list Z * Z :=
  match bytes with
  | [] => (false, out, len)
  | b :: rest =>
      if negb (isascii b) || negb (isprint b) then (true, out, len)
      else
        let '(out, len) := fold_check out len in
        plain_loop rest (out ++ [b]) (len + 1)
  end.

(** State of the encoder when it reaches line 262. *)
Record plain_state : Set := {
  ps_b64 : bool;
  ps_out : list Z;
  ps_len : Z;
  ps_save : list Z;
  ps_savelen : Z
}.

(** Lines 231-261.  [val] holds the [vlen] bytes of the value.  [val[0]] is
    read even when [vlen] is 0: the callers pass C strings, so the byte
    read is then the terminator. *)
Definition put_plain (t val : list Z) : plain_state :=
  let '(out, len) := put_type t [] 0 in
  let out := out ++ [COLON] in
  let len := len + 1 in
  let save := out in
  let savelen := len in
  let out := out ++ [SPACE] in
  let val0 := rd val 0 in
  if isascii (char_of val0) && (ISSPACE val0 || (char_of val0 =? COLON))
  then {| ps_b64 := true; ps_out := out; ps_len := len;
          ps_save := save; ps_savelen := savelen |}
  else
    let '(b64, out, len) := plain_loop val out len in
    {| ps_b64 := b64; ps_out := out; ps_len := len;
       ps_save := save; ps_savelen := savelen |}.

(** [unsigned long] *)
Definition to_ulong (z : Z) : Z := z mod 2 ^ 64.

(** [bits = (byte[0] & 0xff) << 16; bits |= (byte[1] & 0xff) << 8;
    bits |= (byte[2] & 0xff);] *)
Definition pack3 (b0 b1 b2 : Z) : Z :=
  Z.lor (Z.lor (Z.shiftl (Z.land b0 0xff) 16) (Z.shiftl (Z.land b1 0xff) 8))
        (Z.land b2 0xff).

(** [for(i = 0; i < 4; i++, len++, bits <<= 6)] with [n] rounds to go. *)
Fixpoint put_digits (n : nat) (bits : Z) (out : list Z) (len : Z)
    : list Z * Z :=
  match n with
  | O => (out, len)
  | S n' =>
      let '(out, len) := fold_check out len in
      (* get b64 digit from high order 6 bits *)
      let out := out ++ [tbl nib2b64 (Z.shiftr (Z.land bits 0xfc0000) 18)] in
      put_digits n' (to_ulong (Z.shiftl bits 6)) out (len + 1)
  end.

(** [for(byte = val; byte < stop - 2; byte += 3)], lines 268-285: the
    bytes left at [byte], [*out] and [len]. *)
Fixpoint b64_groups (bytes : list Z) (out : list Z) (len : Z)
    : list Z * list Z * Z :=
  match bytes with
  | b0 :: b1 :: b2 :: rest =>
      let '(out, len) := put_digits 4 (pack3 b0 b1 b2) out len in
      b64_groups rest out len
  | _ => (bytes, out, len)
  end.

(** [for(; pad > 0; pad--) *( *out - pad) = '=';] *)
Fixpoint put_pad (pad : nat) (out : list Z) : list Z :=
  match pad with
  | O => out
  | S pad' => put_pad pad' (<[(length out - pad)%nat := EQUALS]> out)
  end.

(** "add padding if necessary", lines 288-315, for the one or two bytes
    [rest] left at [byte]. *)
Definition b64_tail (rest : list Z) (out : list Z) (len : Z) : list Z :=
  match rest with
  | [] => out
  | _ =>
      let pad := (3 - length rest)%nat in
      let buf := rest ++ replicate pad NUL in
      let '(out, _) :=
        put_digits 4 (pack3 (rd buf 0) (rd buf 1) (rd buf 2)) out len in
      put_pad pad out
  end.

(** The [if(b64)] block, lines 263-315. *)
Definition put_b64 (save : list Z) (savelen : Z) (val : list Z) : list Z :=
  let out := save ++ [COLON; SPACE] in
  let len := savelen + 2 in
  let '(rest, out, len) := b64_groups val out len in
  b64_tail rest out len.

Definition put_type_and_value (t val : list Z) : list Z :=
  let st := put_plain t val in
  let out :=
    if ps_b64 st then put_b64 (ps_save st) (ps_savelen st) val
    else ps_out st in
  out ++ [NEWLINE].

(** The value of [b64] at line 262. *)
Definition uses_base64 (t val : list Z) : bool := ps_b64 (put_plain t val).

(** The number of bytes [ldif_type_and_value] stores through [p]: the
    furthest [*out] gets in [put_type_and_value] (the plain attempt is
    abandoned when [b64] is set, and [*out] goes back to [save]), and the
    final NUL. *)
Definition bytes_written (t val : list Z) : Z :=
  Z.max (Z.of_nat (length (ps_out (put_plain t val))))
        (Z.of_nat (length (put_type_and_value t val))) + 1.

(** ** Sizing: [LDIF_SIZE_NEEDED] and [ldif_type_and_value] *)

Definition INT_MIN : Z := - 2 ^ 31.
Definition INT_MAX : Z := 2 ^ 31 - 1.
Definition SIZE_MAX : Z := 2 ^ 64 - 1.

(** Conversion to [int] (two's complement) and to [size_t]. *)
Definition to_int (z : Z) : Z := (z + 2 ^ 31) mod 2 ^ 32 - 2 ^ 31.
Definition to_size_t (z : Z) : Z := z mod 2 ^ 64.

Definition int_add (a b : Z) : Z := to_int (a + b).
Definition int_mul (a b : Z) : Z := to_int (a * b).
Definition int_div (a b : Z) : Z := to_int (Z.quot a b).

(** [#define LDIF_BASE64_LEN(vlen) (((vlen) * 4 / 3 ) + 3)] *)
Definition LDIF_BASE64_LEN (vlen : Z) : Z :=
  int_add (int_div (int_mul vlen 4) 3) 3.

(** [#define LDIF_SIZE_NEEDED(tlen,vlen)
      ((tlen) + 4 + LDIF_BASE64_LEN(vlen)
       + ((LDIF_BASE64_LEN(vlen) + tlen + 3) / LDIF_LINE_WIDTH * 2 ))]
    on [int] operands. *)
Definition LDIF_SIZE_NEEDED (tlen vlen : Z) : Z :=
  int_add (int_add (int_add tlen 4) (LDIF_BASE64_LEN vlen))
          (int_mul
             (int_div (int_add (int_add (LDIF_BASE64_LEN vlen) tlen) 3)
                      LDIF_LINE_WIDTH) 2).

(** The same expression on unbounded integers: the size the macro is
    meant to compute. *)
Definition size_needed_exact (tlen vlen : Z) : Z :=
  let b64len := Z.quot (vlen * 4) 3 + 3 in
  tlen + 4 + b64len + Z.quot (b64len + tlen + 3) LDIF_LINE_WIDTH * 2.

Definition in_int (z : Z) : bool := (INT_MIN <=? z) && (z <=? INT_MAX).

(** No [int] operation of [LDIF_SIZE_NEEDED(tlen, vlen)] overflows.  The
    operands are not negative, so the products, quotients and sums are
    bounded by [vlen * 4] and by the final sum. *)
Definition size_fits_int (tlen vlen : Z) : bool :=
  (0 <=? tlen) && (0 <=? vlen) && in_int (vlen * 4)
  && in_int (size_needed_exact tlen vlen).

(** Lines 331-335: [Some bufsize], the argument of [malloc], or [None]
    when the function returns NULL at line 335. *)
Definition ldif_bufsize (tlen vlen : Z) : option Z :=
  let t := to_size_t (LDIF_SIZE_NEEDED tlen vlen) in
  let bufsize := to_size_t (t + 1) in
  if bufsize <=? t then None else Some bufsize.

(** [ldif_type_and_value(type, val, vlen)] with [vlen] the length of
    [val]; [malloc] is taken to succeed.  The result is the C string at
    [buf]. *)
Definition ldif_type_and_value (type val : list Z) : option (list Z) :=
  let tlen := to_int (Z.of_nat (length (c_str type))) in
  match ldif_bufsize tlen (to_int (Z.of_nat (length val))) with
  | None => None
  | Some _ => Some (put_type_and_value type val)
  end.

(** Decoding of an encoded fragment: the reader joins the physical lines,
    [str_parse_line] splits the logical line. *)
Definition decode_fragment (frag : list Z) : option parse_result :=
  match str_getline (Some frag) with
  | Some (line, _) => Some (str_parse_line line)
  | None => None
  end.

(** The physical lines of a fragment: the runs of bytes between
    newlines. *)
Fixpoint physical_lines (frag : list Z) : list (list Z) :=
  match frag with
  | [] => []
  | c :: rest =>
      if c =? NEWLINE then [] :: physical_lines rest
      else
        match physical_lines rest with
        | [] => [[c]]
        | l :: ls => (c :: l) :: ls
        end
  end.

(** ** Definitions used in the statements *)

(** [isascii(b) && isprint(b)]: the bytes the plain loop copies. *)
Definition printable (b : Z) : bool := isascii b && isprint b.

(** The bytes the plain loop copies before it meets a byte that is not
    printable. *)
Fixpoint printable_prefix (val : list Z) : list Z :=
  match val with
  | [] => []
  | b :: rest => if printable b then b :: printable_prefix rest else []
  end.

(** What one output loop appends for the characters [cs] when it starts
    in column [len]: each of the three loops runs [fold_check] and then
    stores one character. *)
Fixpoint fold_stream (len : Z) (cs : list Z) : list Z :=
  match cs with
  | [] => []
  | c :: cs' =>
      if len >? LDIF_LINE_WIDTH then NEWLINE :: SPACE :: c :: fold_stream 2 cs'
      else c :: fold_stream (len + 1) cs'
  end.

(** The value of [len] after [n] characters. *)
Fixpoint fold_len (len : Z) (n : nat) : Z :=
  match n with
  | O => len
  | S n' => fold_len ((if len >? LDIF_LINE_WIDTH then 1 else len) + 1) n'
  end.

(** The number of folds among [n] characters. *)
Fixpoint fold_count (len : Z) (n : nat) : nat :=
  match n with
  | O => O
  | S n' =>
      if len >? LDIF_LINE_WIDTH then S (fold_count 2 n')
      else fold_count (len + 1) n'
  end.

(** The four digits of one group. *)
Fixpoint digits (n : nat) (bits : Z) : list Z :=
  match n with
  | O => []
  | S n' =>
      tbl nib2b64 (Z.shiftr (Z.land bits 0xfc0000) 18)
      :: digits n' (to_ulong (Z.shiftl bits 6))
  end.

(** The digits of the complete groups of three bytes, and the bytes left
    over. *)
Fixpoint full_text (bytes : list Z) : list Z :=
  match bytes with
  | b0 :: b1 :: b2 :: rest => digits 4 (pack3 b0 b1 b2) ++ full_text rest
  | _ => []
  end.

Fixpoint leftover (bytes : list Z) : list Z :=
  match bytes with
  | b0 :: b1 :: b2 :: rest => leftover rest
  | _ => bytes
  end.

(** The digits of the final group, for the one or two bytes left over and
    the zero bytes that complete them. *)
Definition tail_digits (rest : list Z) : list Z :=
  match rest with
  | [] => []
  | _ =>
      let buf := rest ++ replicate (3 - length rest) NUL in
      digits 4 (pack3 (rd buf 0) (rd buf 1) (rd buf 2))
  end.

(** The base64 characters of a value before the pad characters are
    stored over the last ones. *)
Definition b64_raw (val : list Z) : list Z :=
  full_text val ++ tail_digits (leftover val).

(** The test of line 245 on [val[0]]. *)
Definition starts_special (val : list Z) : bool :=
  let val0 := rd val 0 in
  isascii (char_of val0) && (ISSPACE val0 || (char_of val0 =? COLON)).

(** The three bytes the loop body stores for a group with the nibbles
    [n0], [n1], [n2], [n3]: the stores into [byte[0]], [byte[1]] and
    [byte[2]], the second one of each through [|=]. *)
Definition byte0 (n0 n1 : Z) : Z :=
  to_byte (Z.lor (char_of (to_byte (Z.shiftl n0 2))) (Z.shiftr n1 4)).
Definition byte1_first (n1 : Z) : Z := to_byte (Z.shiftl (Z.land n1 RIGHT4) 4).
Definition byte1 (n1 n2 : Z) : Z :=
  to_byte (Z.lor (char_of (byte1_first n1)) (Z.shiftr n2 2)).
Definition byte2_first (n2 : Z) : Z := to_byte (Z.shiftl (Z.land n2 RIGHT2) 6).
Definition byte2 (n2 n3 : Z) : Z :=
  to_byte (Z.lor (char_of (byte2_first n2)) n3).

Definition group_bytes (c0 c1 c2 c3 : Z) : list Z :=
  [ byte0 (nibble c0) (nibble c1); byte1 (nibble c1) (nibble c2);
    byte2 (nibble c2) (nibble c3) ].

(** A group that neither fails nor ends the loop: no invalid character in
    the first three positions, no ['='] in the last two, and the string
    does not end in it. *)
Definition is_full_group (g : list Z) : bool :=
  match g with
  | [c0; c1; c2; c3] =>
      negb (bad_b64_char c0) && negb (bad_b64_char c1)
      && negb (bad_b64_char c2)
      && negb (c2 =? EQUALS) && negb (c3 =? EQUALS) && negb (c3 =? NUL)
  | _ => false
  end.

(** The number of pad characters for a value of [vlen] bytes. *)
Definition pad_count (vlen : nat) : nat :=
  match (vlen mod 3)%nat with
  | 0%nat => 0%nat
  | 1%nat => 2%nat
  | _ => 1%nat
  end.

(** The base64 text of a value: its digits, with the pad characters in
    the place of the last ones. *)
Definition b64_text (val : list Z) : list Z :=
  let raw := b64_raw val in
  let pad := pad_count (length val) in
  take (length raw - pad) raw ++ replicate pad EQUALS.

(** Unfolding of a folded payload: every newline goes, and with it the
    fold space that follows it. *)
Fixpoint unfold (s : list Z) : list Z :=
  match s with
  | [] => []
  | c :: s' =>
      if c =? NEWLINE then
        match s' with
        | _ :: s'' => unfold s''
        | [] => []
        end
      else c :: unfold s'
  end.

(** What the decoder and the line joiner need to know of a base64 digit. *)
Definition digit_ok (c : Z) : bool :=
  negb (bad_b64_char c) && negb (c =? EQUALS) && negb (c =? NUL)
  && negb (c =? CONTINUED_LINE_MARKER) && negb (c =? NEWLINE)
  && negb (ISSPACE c).

(** What [str_getline] makes of [fold_stream len cs]: the two bytes of
    every fold become continued-line markers. *)
Fixpoint mark_stream (len : Z) (cs : list Z) : list Z :=
  match cs with
  | [] => []
  | c :: cs' =>
      if len >? LDIF_LINE_WIDTH then
        CONTINUED_LINE_MARKER :: CONTINUED_LINE_MARKER :: c :: mark_stream 2 cs'
      else c :: mark_stream (len + 1) cs'
  end.

(** An attribute name: not empty, ASCII, no NUL, no colon, no newline, no
    white space at either end. *)
Definition valid_type (t : list Z) : bool :=
  match t with
  | [] => false
  | c :: _ => negb (ISSPACE c)
  end
  && match last t with
     | Some c => negb (ISSPACE c)
     | None => false
     end
  && forallb (fun c => (0 <? c) && (c <? 128) && negb (c =? COLON)
                       && negb (c =? NEWLINE)) t.

(** The padding meets a fold: the value goes out in base64 with two pad
    characters, and [len] is above [LDIF_LINE_WIDTH] when the last
    character of the final group is to be stored, so that a newline and
    a space are stored before it. *)
Definition pad_on_fold (t val : list Z) : bool :=
  uses_base64 t val && (pad_count (length val) =? 2)%nat
  && (fold_len (Z.of_nat (length (c_str t)) + 3) (length (b64_raw val) - 1)
      >? LDIF_LINE_WIDTH).

(** ** Header fields of --add-email (src/abook.c)

    [set_email_fields] splits the argument of --fields at the commas,
    [mailaddr_prefix] looks for one of the fields at the start of a
    header line, and [add_email_list] cuts the rest of the line at its
    commas.  A field and a line are given by the bytes before their
    terminator. *)

Definition COMMA : Z := 44.

Inductive fields_error : Set :=
  | NoFieldsGiven      (* "No fields given", exit(EXIT_FAILURE) *)
  | EmptyFieldGiven.   (* "Empty field given", exit(EXIT_FAILURE) *)

Inductive fields_result : Set :=
  | Fields (f : list (list Z))       (* the array left in [email_fields] *)
  | FieldsExit (e : fields_error).

(** [for(i = 0; fl[i]; i++) if(fl[i] == ',') fieldcount++;] from
    [fieldcount]; an argument of the command line is far too short for
    the [unsigned int] to wrap. *)
Fixpoint count_fields (fl : list Z) (fieldcount : nat) : nat :=
  match fl with
  | [] => fieldcount
  | c :: fl' =>
      if c =? COMMA then count_fields fl' (S fieldcount)
      else count_fields fl' fieldcount
  end.

(** The second loop of [set_email_fields] and the test after it: [cur]
    holds the bytes between [f[j-1]] and [fl + i], [done] the strings
    [f[0]] to [f[j-2]].  At a comma [strlen(f[j-1])] is the length of
    [cur], the comma having just become the terminator. *)
Fixpoint split_fields (fl cur : list Z) (done : list (list Z))
    : fields_result :=
  match fl with
  | [] =>
      match cur with
      | [] => FieldsExit EmptyFieldGiven
      | _ => Fields (done ++ [cur])
      end
  | c :: fl' =>
      if c =? COMMA then
        match cur with
        | [] => FieldsExit EmptyFieldGiven
        | _ => split_fields fl' [] (done ++ [cur])
        end
      else split_fields fl' (cur ++ [c]) done
  end.

Definition set_email_fields (fl : list Z) : fields_result :=
  match c_str fl with
  | [] => FieldsExit NoFieldsGiven
  | s => split_fields s [] []
  end.

(** <ctype.h> [tolower] in the "C" locale. *)
Definition tolower (c : Z) : Z :=
  if (65 <=? c) && (c <=? 90) then c + 32 else c.

(** [strncasecmp(s1, s2, n) == 0]: the first [n] bytes of the two
    strings are the same up to the case of letters, or the strings end
    together before that. *)
Fixpoint strncasecmp_eq (s1 s2 : list Z) (n : nat) : bool :=
  match n with
  | O => true
  | S n' =>
      let c1 := rd s1 0 in
      let c2 := rd s2 0 in
      if tolower c1 =? tolower c2 then
        if c1 =? NUL then true
        else strncasecmp_eq (drop 1 s1) (drop 1 s2) n'
      else false
  end.

(** [mailaddr_prefix(line)] with the array [f] in [email_fields]: the
    bytes at the pointer returned, [None] for NULL. *)
Fixpoint mailaddr_prefix (f : list (list Z)) (line : list Z)
    : option (list Z) :=
  match f with
  | [] => None
  | fi :: f' =>
      let len := length fi in
      if strncasecmp_eq fi line len && (rd line len =? COLON)
      then Some (drop (len + 1) line)
      else mailaddr_prefix f' line
  end.

(** The strings of [default_email_fields]. *)
Definition default_email_fields : list (list Z) := [bytes_of "from"].

(** [while(isspace( *line)) line++;] in [add_email_list]: the argument is
    a plain [char] here. *)
Fixpoint skip_blanks (line : list Z) : list Z :=
  match line with
  | c :: line' => if isspace (char_of c) then skip_blanks line' else line
  | [] => []
  end.

(** [next = strchr(line, ','); if(next) *next++ = 0;] : the string left at
    [line] and the bytes at [next], [None] for NULL. *)
Fixpoint cut_at_comma (line : list Z) : list Z * option (list Z) :=
  match line with
  | [] => ([], None)
  | c :: rest =>
      if c =? COMMA then ([], Some rest)
      else let '(item, next) := cut_at_comma rest in (c :: item, next)
  end.

(** The loop of [add_email_list]: the strings handed to [getname], one for
    each increment of [add_email_found].  [fuel] bounds the number of
    turns; every turn but the last moves [line] past a comma. *)
Fixpoint add_email_list (fuel : nat) (line : option (list Z))
    : list (list Z) :=
  match fuel, line with
  | S fuel', Some l =>
      match skip_blanks l with
      | [] => []
      | c :: l' =>
          let '(item, next) := cut_at_comma (c :: l') in
          item :: add_email_list fuel' next
      end
  | _, _ => []
  end.

(** The addresses found in a line: one turn for each byte is enough. *)
Definition add_email_items (line : list Z) : list (list Z) :=
  add_email_list (S (length line)) (Some line).

(** The bytes [b64_group] stores for a group of four characters. *)
Definition group_bytes_of (g : list Z) : list Z :=
  match g with
  | [c0; c1; c2; c3] => group_bytes c0 c1 c2 c3
  | _ => []
  end.

(** The fields of an array joined with commas. *)
Fixpoint join_fields (f : list (list Z)) : list Z :=
  match f with
  | [] => []
  | [x] => x
  | x :: f' => x ++ COMMA :: join_fields f'
  end.

(** * Properties *)

(** Ranges of quotients and remainders of bytes. *)
Ltac digit_range := unfold is_byte in *; Z.div_mod_to_equations; lia.

(** ** The scenarios of the specification *)

Example decode_plain :
  str_parse_line (bytes_of "cn: John Doe") =
    ParseOk (bytes_of "cn") (bytes_of "John Doe") 8.
Proof. reflexivity. Qed.

Example decode_invalid_base64 :
  str_parse_line (bytes_of "cn:: not-valid-base64!") = ParseErr InvalidBase64Char.
Proof. vm_compute. reflexivity. Qed.

Example encode_plain :
  put_type_and_value (bytes_of "cn") (bytes_of "John Doe") =
    bytes_of "cn: John Doe" ++ [NEWLINE].
Proof. vm_compute. reflexivity. Qed.

Example encode_binary :
  put_type_and_value (bytes_of "jpegPhoto") [255; 255; 255] =
    bytes_of "jpegPhoto:: ////" ++ [NEWLINE].
Proof. vm_compute. reflexivity. Qed.

Example decode_folded :
  decode_fragment (put_type_and_value (bytes_of "cn") (replicate 200 97)) =
    Some (ParseOk (bytes_of "cn") (replicate 200 97) 200).
Proof. vm_compute. reflexivity. Qed.

(** ** Characters and C strings *)

Lemma isspace_byte c : isspace c = true -> ISSPACE c = true /\ 9 <= c <= 32.
Proof.
  unfold ISSPACE, isspace. intros H.
  assert (9 <= c <= 32) as Hc by lia.
  rewrite Z.mod_small by lia. auto.
Qed.

Lemma c_str_id l : NUL ∉ l -> c_str l = l.
Proof.
  induction l as [|c l IH]; simpl; [done|].
  intros Hn. apply not_elem_of_cons in Hn as [Hc Hl].
  destruct (Z.eqb_spec c NUL); [congruence|]. by rewrite IH.
Qed.

(** ** The separator and the value of a line *)

Lemma skip_space_elem x l : x ∈ skip_space l -> x ∈ l.
Proof.
  induction l as [|c l IH]; simpl; [done|].
  destruct (ISSPACE c); [|done]. rewrite elem_of_cons. auto.
Qed.

Lemma skip_space_all ws : Forall (fun c => isspace c = true) ws -> skip_space ws = [].
Proof.
  induction 1 as [|c ws Hc _ IH]; simpl; [done|].
  apply isspace_byte in Hc as [-> _]. done.
Qed.

Lemma skip_space_app_colon pre rest :
  skip_space (pre ++ COLON :: rest) = skip_space pre ++ COLON :: rest.
Proof.
  induction pre as [|c pre IH]; simpl; [done|].
  destruct (ISSPACE c); done.
Qed.

Lemma find_colon_none l : COLON ∉ l -> find_colon l = (l, None).
Proof.
  induction l as [|c l IH]; simpl; [done|].
  intros Hn. apply not_elem_of_cons in Hn as [Hc Hl].
  destruct (Z.eqb_spec c COLON); [congruence|]. by rewrite IH.
Qed.

Lemma find_colon_first pre rest :
  COLON ∉ pre -> find_colon (pre ++ COLON :: rest) = (pre, Some (COLON :: rest)).
Proof.
  induction pre as [|c pre IH]; simpl; [done|].
  intros Hn. apply not_elem_of_cons in Hn as [Hc Hl].
  destruct (Z.eqb_spec c COLON); [congruence|]. by rewrite IH.
Qed.

Lemma parse_missing_separator line :
  COLON ∉ c_str line -> str_parse_line line = ParseErr MissingSeparator.
Proof.
  intros Hn. unfold str_parse_line.
  rewrite find_colon_none; [done|].
  intros H. by apply Hn, skip_space_elem.
Qed.

Lemma parse_missing_value pre colons ws :
  NUL ∉ pre -> COLON ∉ pre ->
  colons = [COLON] \/ colons = [COLON; COLON] ->
  Forall (fun c => isspace c = true) ws ->
  str_parse_line (pre ++ colons ++ ws) = ParseErr MissingValue.
Proof.
  intros Hnul Hcol Hc Hws. unfold str_parse_line.
  assert (NUL ∉ ws) as Hnws.
  { intros Hin. rewrite Forall_forall in Hws. apply Hws, isspace_byte in Hin.
    unfold NUL in Hin. lia. }
  assert (forall c ws', ws = c :: ws' -> (c =? COLON) = false) as Hhd.
  { intros c ws' ->. apply Forall_cons in Hws as [Hc0%isspace_byte _].
    unfold COLON. lia. }
  rewrite c_str_id.
  2:{ rewrite !not_elem_of_app. split; [done|]. split; [|done].
      destruct Hc as [-> | ->]; rewrite ?not_elem_of_cons; unfold NUL, COLON;
        repeat split; try lia; apply not_elem_of_nil. }
  destruct Hc as [-> | ->]; simpl app; rewrite skip_space_app_colon.
  - rewrite find_colon_first.
    2:{ intros H. by apply Hcol, skip_space_elem. }
    destruct ws as [|c ws']; [done|].
    rewrite (Hhd c ws' eq_refl). by rewrite skip_space_all.
  - rewrite find_colon_first.
    2:{ intros H. by apply Hcol, skip_space_elem. }
    rewrite Z.eqb_refl. by rewrite skip_space_all.
Qed.

(** C7.  A line with no colon is rejected with [MissingSeparator]; a line
    whose colon, or double colon, is followed by white space only, or by
    nothing, is rejected with [MissingValue].  Neither yields a triple:
    the results are [ParseErr], and the function returns -1. *)
Theorem parse_errors_missing_separator_and_value :
  (forall line, COLON ∉ c_str line ->
     str_parse_line line = ParseErr MissingSeparator /\
     return_code (str_parse_line line) = -1) /\
  (forall pre colons ws,
     NUL ∉ pre -> COLON ∉ pre ->
     colons = [COLON] \/ colons = [COLON; COLON] ->
     Forall (fun c => isspace c = true) ws ->
     str_parse_line (pre ++ colons ++ ws) = ParseErr MissingValue /\
     return_code (str_parse_line (pre ++ colons ++ ws)) = -1) /\
  str_parse_line (bytes_of "noseparatorhere") = ParseErr MissingSeparator /\
  str_parse_line (bytes_of "cn:   ") = ParseErr MissingValue.
Proof.
  split; [|split; [|split]].
  - intros line H. by rewrite parse_missing_separator.
  - intros pre colons ws H1 H2 H3 H4. by rewrite parse_missing_value.
  - reflexivity.
  - reflexivity.
Qed.

Lemma parse_errors_witness :
  str_parse_line (bytes_of "abc") = ParseErr MissingSeparator /\
  str_parse_line (bytes_of "cn" ++ [COLON; COLON] ++ [SPACE; 9]) =
    ParseErr MissingValue.
Proof.
  destruct parse_errors_missing_separator_and_value as [H1 [H2 _]].
  split.
  - apply H1. apply (bool_decide_unpack _). vm_compute. exact I.
  - apply H2.
    + apply (bool_decide_unpack _). vm_compute. exact I.
    + apply (bool_decide_unpack _). vm_compute. exact I.
    + right. reflexivity.
    + repeat constructor.
Defined.

(** ** Evaluations of the code *)

(** C2.  The validity loop of [str_parse_line] runs over [p[0]], [p[1]] and
    [p[2]] only: ['!'] is no base64 character, yet in the fourth position
    of a group it is decoded, and the call returns 0 with three bytes. *)
Theorem invalid_fourth_char_is_accepted :
  bad_b64_char 33 = true /\
  str_parse_line (bytes_of "cn:: AAA!") = ParseOk (bytes_of "cn") [0; 0; 255] 3 /\
  return_code (str_parse_line (bytes_of "cn:: AAA!")) = 0.
Proof. vm_compute. auto. Qed.

(** C3.  With the type "cn" and a value of 200 letters the first physical
    line has 78 columns and the second one 77, more than
    [LDIF_LINE_WIDTH]; on the base64 path both have 77. *)
Theorem folded_lines_exceed_line_width :
  map length (physical_lines (put_type_and_value (bytes_of "cn") (replicate 200 97)))
    = [78; 77; 51]%nat /\
  map length (physical_lines (put_type_and_value (bytes_of "cn") (replicate 200 255)))
    = [77; 77; 77; 45]%nat.
Proof. vm_compute. auto. Qed.

(** C4.  For a type of two characters and a value of 2^30 bytes the
    product [vlen * 4] wraps to 0, [LDIF_SIZE_NEEDED] is 9, the test at
    line 334 passes and 10 bytes are requested, where the size the macro
    stands for is 1469330924. *)
Theorem size_overflow_is_not_detected :
  size_fits_int 2 (2 ^ 30) = false /\
  LDIF_SIZE_NEEDED 2 (2 ^ 30) = 9 /\
  ldif_bufsize 2 (2 ^ 30) = Some 10 /\
  size_needed_exact 2 (2 ^ 30) = 1469330924.
Proof. vm_compute. auto. Qed.

(** C9.  With a type of three characters and a value of 52 bytes on the
    base64 path, the fold falls before the last character of the final
    group, and the two ['='] are stored over the fold space and that
    character: the second physical line is "==", with no leading space,
    and the first one keeps the digit that the padding was meant to
    replace. *)
Theorem padding_overwrites_fold_space :
  physical_lines (put_type_and_value (bytes_of "uid") (replicate 52 255)) =
    [ bytes_of "uid:: /////////////////////////////////////////////////////////////////////wA";
      bytes_of "==" ].
Proof. vm_compute. reflexivity. Qed.

(** ** The output loops of the encoder *)

Lemma put_type_spec t out len :
  put_type t out len = (out ++ c_str t, len + Z.of_nat (length (c_str t))).
Proof.
  revert out len. induction t as [|c t IH]; intros out len; simpl.
  - by rewrite app_nil_r, Z.add_0_r.
  - destruct (c =? NUL); simpl.
    + by rewrite app_nil_r, Z.add_0_r.
    + rewrite IH, <- app_assoc. simpl. f_equal. lia.
Qed.

Lemma put_digits_spec n bits out len :
  put_digits n bits out len =
    (out ++ fold_stream len (digits n bits), fold_len len n).
Proof.
  revert bits out len. induction n as [|n IH]; intros bits out len; simpl.
  - by rewrite app_nil_r.
  - unfold fold_check. destruct (len >? LDIF_LINE_WIDTH).
    + rewrite IH, <- !app_assoc. done.
    + rewrite IH, <- !app_assoc. done.
Qed.

Lemma fold_stream_app len a b :
  fold_stream len (a ++ b) =
    fold_stream len a ++ fold_stream (fold_len len (length a)) b.
Proof.
  revert len. induction a as [|c a IH]; intros len; simpl; [done|].
  destruct (len >? LDIF_LINE_WIDTH); simpl; by rewrite IH.
Qed.

Lemma fold_len_add len n m :
  fold_len len (n + m) = fold_len (fold_len len n) m.
Proof. revert len. induction n as [|n IH]; intros len; simpl; [done|]. apply IH. Qed.

Lemma digits_length n bits : length (digits n bits) = n.
Proof. revert bits. induction n as [|n IH]; intros bits; simpl; [done|]. by rewrite IH. Qed.

Lemma fold_stream_length len cs :
  length (fold_stream len cs) = (length cs + 2 * fold_count len (length cs))%nat.
Proof.
  revert len. induction cs as [|c cs IH]; intros len; simpl; [done|].
  destruct (len >? LDIF_LINE_WIDTH); simpl; rewrite IH; lia.
Qed.

(** Every fold takes [len] from above 76 back to 1. *)
Lemma fold_count_bound len n :
  1 <= len ->
  76 * Z.of_nat (fold_count len n) + fold_len len n <= len + Z.of_nat n /\
  1 <= fold_len len n.
Proof.
  revert len. induction n as [|n IH]; intros len Hlen; simpl fold_count; simpl fold_len.
  - lia.
  - unfold LDIF_LINE_WIDTH. destruct (Z.gtb_spec len 76).
    + destruct (IH 2 ltac:(lia)) as [H1 H2]. change (1 + 1) with 2. lia.
    + destruct (IH (len + 1) ltac:(lia)) as [H1 H2]. lia.
Qed.

Lemma plain_loop_spec val out len :
  plain_loop val out len =
    let pre := printable_prefix val in
    (negb (forallb printable val), out ++ fold_stream len pre,
     fold_len len (length pre)).
Proof.
  revert out len. induction val as [|b val IH]; intros out len; simpl.
  - by rewrite app_nil_r.
  - unfold printable at 1 3 4. rewrite <- negb_andb.
    destruct (isascii b && isprint b) eqn:Hb; simpl.
    + unfold fold_check.
      destruct (len >? LDIF_LINE_WIDTH); rewrite IH; simpl;
        rewrite <- !app_assoc; done.
    + by rewrite app_nil_r.
Qed.

Lemma b64_groups_spec val out len :
  b64_groups val out len =
    (leftover val, out ++ fold_stream len (full_text val),
     fold_len len (length (full_text val))).
Proof.
  revert out len.
  assert (forall n val, (length val <= n)%nat -> forall out len,
    b64_groups val out len =
      (leftover val, out ++ fold_stream len (full_text val),
       fold_len len (length (full_text val)))) as H.
  { induction n as [|n IH]; intros v Hn out len.
    - destruct v; [|simpl in Hn; lia]. simpl. by rewrite app_nil_r.
    - destruct v as [|b0 [|b1 [|b2 rest]]]; try (simpl; by rewrite app_nil_r).
      change (b64_groups (b0 :: b1 :: b2 :: rest) out len) with
        (let '(out, len) := put_digits 4 (pack3 b0 b1 b2) out len in
         b64_groups rest out len).
      rewrite put_digits_spec. rewrite IH by (simpl in Hn; lia).
      change (full_text (b0 :: b1 :: b2 :: rest)) with
        (digits 4 (pack3 b0 b1 b2) ++ full_text rest).
      change (leftover (b0 :: b1 :: b2 :: rest)) with (leftover rest).
      rewrite fold_stream_app, length_app, fold_len_add, digits_length, <- app_assoc.
      done. }
  intros out len. by apply (H (length val)).
Qed.

Lemma list_ind3 (P : list Z -> Prop) :
  P [] -> (forall a, P [a]) -> (forall a b, P [a; b]) ->
  (forall a b c l, P l -> P (a :: b :: c :: l)) ->
  forall l, P l.
Proof.
  intros H0 H1 H2 H3.
  assert (forall n l, (length l <= n)%nat -> P l) as H.
  { induction n as [|n IH]; intros l Hl.
    - destruct l; [done|simpl in Hl; lia].
    - destruct l as [|a [|b [|c l]]]; auto.
      apply H3, IH. simpl in Hl. lia. }
  intros l. by apply (H (length l)).
Qed.

Lemma leftover_length val : length (leftover val) = (length val mod 3)%nat.
Proof.
  induction val as [| | |a b c l IH] using list_ind3; try done.
  change (leftover (a :: b :: c :: l)) with (leftover l). rewrite IH.
  change (length (a :: b :: c :: l)) with (3 + length l)%nat.
  symmetry. rewrite Nat.add_comm. apply (Nat.Div0.mod_add _ 1 3).
Qed.

Lemma full_text_length val : length (full_text val) = (4 * (length val / 3))%nat.
Proof.
  induction val as [| | |a b c l IH] using list_ind3; try done.
  change (full_text (a :: b :: c :: l)) with
    (digits 4 (pack3 a b c) ++ full_text l).
  rewrite length_app, digits_length, IH.
  change (length (a :: b :: c :: l)) with (3 + length l)%nat.
  replace (3 + length l)%nat with (length l + 1 * 3)%nat by lia.
  rewrite Nat.div_add by lia. lia.
Qed.

Lemma tail_digits_length rest :
  length (tail_digits rest) = match rest with [] => 0%nat | _ => 4%nat end.
Proof. destruct rest; [done|]. unfold tail_digits. by rewrite digits_length. Qed.

Lemma leftover_pad val :
  match leftover val with
  | [] => pad_count (length val) = 0%nat
  | _ => pad_count (length val) = (3 - length (leftover val))%nat
  end.
Proof.
  pose proof (leftover_length val) as H. unfold pad_count.
  pose proof (Nat.mod_upper_bound (length val) 3 ltac:(lia)) as Hm.
  destruct (leftover val) as [|a [|b [|c r]]]; cbn [length] in H;
    rewrite <- H in *; try done. lia.
Qed.

Lemma b64_raw_length val :
  length (b64_raw val) = (4 * ((length val + 2) / 3))%nat.
Proof.
  unfold b64_raw. rewrite length_app, full_text_length, tail_digits_length.
  pose proof (leftover_length val) as H.
  pose proof (Nat.div_mod_eq (length val) 3) as Hd.
  pose proof (Nat.mod_upper_bound (length val) 3 ltac:(lia)) as Hm.
  assert (forall k r q, (k = 3 * q + r)%nat -> (r = 0 \/ r = 1 \/ r = 2)%nat ->
            ((k + 2) / 3 = q + (if (r =? 0)%nat then 0 else 1))%nat) as Hq.
  { intros k r q -> Hr.
    destruct Hr as [-> | [-> | ->]]; simpl Nat.eqb; cbv iota.
    - replace (3 * q + 0 + 2)%nat with (2 + q * 3)%nat by lia.
      rewrite Nat.div_add by lia. simpl. lia.
    - replace (3 * q + 1 + 2)%nat with (0 + (q + 1) * 3)%nat by lia.
      rewrite Nat.div_add by lia. simpl. lia.
    - replace (3 * q + 2 + 2)%nat with (1 + (q + 1) * 3)%nat by lia.
      rewrite Nat.div_add by lia. simpl. lia. }
  rewrite (Hq _ _ _ Hd) by lia. rewrite <- H.
  destruct (leftover val) as [|a [|b [|c r]]]; cbn [length] in *; simpl Nat.eqb;
    cbv iota; lia.
Qed.

Lemma put_pad_spec pad out :
  (pad <= length out)%nat ->
  put_pad pad out = take (length out - pad) out ++ replicate pad EQUALS.
Proof.
  revert out. induction pad as [|k IH]; intros out Hk; simpl.
  - by rewrite Nat.sub_0_r, firstn_all, app_nil_r.
  - rewrite IH by (rewrite length_insert; lia). rewrite length_insert.
    replace (length out - k)%nat with (S (length out - S k)) by lia.
    rewrite (take_S_r _ _ EQUALS) by (apply list_lookup_insert_eq; lia).
    rewrite take_insert_ge by lia. rewrite <- app_assoc. done.
Qed.

Lemma put_b64_spec save savelen val :
  put_b64 save savelen val =
    put_pad (pad_count (length val))
      (save ++ [COLON; SPACE] ++ fold_stream (savelen + 2) (b64_raw val)).
Proof.
  unfold put_b64, b64_raw. rewrite b64_groups_spec.
  pose proof (leftover_pad val) as Hp.
  rewrite fold_stream_app.
  destruct (leftover val) as [|a rest] eqn:Hl.
  - rewrite Hp. simpl. by rewrite !app_nil_r, <- app_assoc.
  - unfold b64_tail. rewrite put_digits_spec. rewrite Hp.
    unfold tail_digits. by rewrite <- !app_assoc.
Qed.

Lemma uses_base64_spec t val :
  uses_base64 t val = starts_special val || negb (forallb printable val).
Proof.
  unfold uses_base64, put_plain, starts_special.
  rewrite put_type_spec.
  destruct (isascii _ && _); simpl; [done|].
  by rewrite plain_loop_spec.
Qed.

Lemma printable_prefix_all val :
  forallb printable val = true -> printable_prefix val = val.
Proof.
  induction val as [|b val IH]; simpl; [done|].
  destruct (printable b); simpl; [|done]. intros H. by rewrite IH.
Qed.

Lemma printable_prefix_length val :
  (length (printable_prefix val) <= length val)%nat.
Proof.
  induction val as [|b val IH]; simpl; [done|].
  destruct (printable b); simpl; lia.
Qed.

(** The output of the plain attempt, lines 231-261. *)
Lemma put_plain_out t val :
  ps_out (put_plain t val) =
    c_str t ++ [COLON; SPACE] ++
    (if starts_special val then []
     else fold_stream (Z.of_nat (length (c_str t)) + 1) (printable_prefix val)).
Proof.
  unfold put_plain, starts_special. rewrite put_type_spec. simpl.
  destruct (isascii _ && _); simpl.
  - by rewrite <- app_assoc.
  - rewrite plain_loop_spec. simpl. by rewrite <- !app_assoc.
Qed.

Lemma put_plain_save t val :
  ps_save (put_plain t val) = c_str t ++ [COLON] /\
  ps_savelen (put_plain t val) = Z.of_nat (length (c_str t)) + 1.
Proof.
  unfold put_plain. rewrite put_type_spec. simpl.
  destruct (isascii _ && _); simpl; [done|].
  rewrite plain_loop_spec. done.
Qed.

(** The fragment on the plain path. *)
Lemma put_type_and_value_plain t val :
  uses_base64 t val = false ->
  put_type_and_value t val =
    c_str t ++ [COLON; SPACE] ++
    fold_stream (Z.of_nat (length (c_str t)) + 1) val ++ [NEWLINE].
Proof.
  intros Hb. unfold put_type_and_value.
  change (ps_b64 (put_plain t val)) with (uses_base64 t val). rewrite Hb.
  rewrite put_plain_out. rewrite uses_base64_spec in Hb.
  apply orb_false_elim in Hb as [-> Hp]. apply negb_false_iff in Hp.
  rewrite printable_prefix_all by done. by rewrite <- !app_assoc.
Qed.

(** The fragment on the base64 path. *)
Lemma put_type_and_value_b64 t val :
  uses_base64 t val = true ->
  let stream := fold_stream (Z.of_nat (length (c_str t)) + 3) (b64_raw val) in
  let pad := pad_count (length val) in
  put_type_and_value t val =
    c_str t ++ [COLON; COLON; SPACE] ++
    take (length stream - pad) stream ++ replicate pad EQUALS ++ [NEWLINE].
Proof.
  intros Hb stream pad. unfold put_type_and_value.
  change (ps_b64 (put_plain t val)) with (uses_base64 t val). rewrite Hb.
  destruct (put_plain_save t val) as [-> ->].
  rewrite put_b64_spec.
  replace (Z.of_nat (length (c_str t)) + 1 + 2)
    with (Z.of_nat (length (c_str t)) + 3) by lia.
  fold stream. fold pad.
  assert (pad <= length stream)%nat as Hpad.
  { unfold stream. rewrite fold_stream_length.
    unfold b64_raw. rewrite length_app, tail_digits_length.
    pose proof (leftover_pad val) as Hp. fold pad in Hp.
    destruct (leftover val); simpl in *; lia. }
  set (pre := c_str t ++ [COLON; COLON; SPACE]).
  replace ((c_str t ++ [COLON]) ++ [COLON; SPACE] ++ stream)
    with (pre ++ stream) by (unfold pre; by rewrite <- !app_assoc).
  rewrite put_pad_spec by (rewrite length_app; lia).
  rewrite length_app.
  replace (length pre + length stream - pad)%nat
    with (length pre + (length stream - pad))%nat by lia.
  rewrite take_app_add. unfold pre. rewrite <- !app_assoc. done.
Qed.

(** ** The characters of the payload *)

Lemma digit_index_range bits : 0 <= Z.shiftr (Z.land bits 0xfc0000) 18 < 64.
Proof.
  rewrite Z.shiftr_land. change (Z.shiftr 0xfc0000 18) with (Z.ones 6).
  rewrite Z.land_ones by lia. apply Z.mod_pos_bound. lia.
Qed.

Lemma tbl_elem table i :
  0 <= i < Z.of_nat (length table) -> tbl table i ∈ table.
Proof.
  intros Hi. unfold tbl. apply list_elem_of_In, nth_In. lia.
Qed.

Lemma digits_alphabet n bits : Forall (fun c => c ∈ nib2b64) (digits n bits).
Proof.
  revert bits. induction n as [|n IH]; intros bits; simpl; constructor; [|apply IH].
  apply tbl_elem. pose proof (digit_index_range bits). simpl. lia.
Qed.

Lemma full_text_alphabet val : Forall (fun c => c ∈ nib2b64) (full_text val).
Proof.
  induction val as [| | |a b c l IH] using list_ind3; try by constructor.
  change (full_text (a :: b :: c :: l)) with
    (digits 4 (pack3 a b c) ++ full_text l).
  apply Forall_app_2; [apply digits_alphabet|done].
Qed.

Lemma b64_raw_alphabet val : Forall (fun c => c ∈ nib2b64) (b64_raw val).
Proof.
  unfold b64_raw. apply Forall_app_2; [apply full_text_alphabet|].
  unfold tail_digits. destruct (leftover val); [constructor|apply digits_alphabet].
Qed.

Lemma alphabet_forall (P : Z -> bool) c :
  forallb P nib2b64 = true -> c ∈ nib2b64 -> P c = true.
Proof.
  intros H Hc. rewrite forallb_forall in H. by apply H, list_elem_of_In.
Qed.

Lemma fold_stream_Forall (P : Z -> Prop) len cs :
  P NEWLINE -> P SPACE -> Forall P cs -> Forall P (fold_stream len cs).
Proof.
  intros Hn Hs H. revert len.
  induction H as [|c cs Hc _ IH]; intros len; simpl; [constructor|].
  destruct (len >? LDIF_LINE_WIDTH); repeat constructor; auto.
Qed.

Lemma unfold_fold_stream len cs :
  Forall (fun c => c <> NEWLINE) cs -> unfold (fold_stream len cs) = cs.
Proof.
  intros H. revert len. induction H as [|c cs Hc _ IH]; intros len; simpl; [done|].
  destruct (len >? LDIF_LINE_WIDTH); simpl.
  - destruct (Z.eqb_spec c NEWLINE); [done|]. by rewrite IH.
  - destruct (Z.eqb_spec c NEWLINE); [done|]. by rewrite IH.
Qed.

(** ** C5: padding *)

(** C5.  On the base64 path the fragment is the type, "::", a space, a
    payload with no ['='] in it, the pad characters and the newline: no
    pad character when [vlen mod 3 = 0], two when it is 1, one when it
    is 2. *)
Theorem base64_padding_law t val :
  uses_base64 t val = true ->
  exists body n,
    put_type_and_value t val =
      c_str t ++ [COLON; COLON; SPACE] ++ body ++ replicate n EQUALS ++ [NEWLINE] /\
    (EQUALS ∉ body) /\
    ((length val mod 3 = 0)%nat -> n = 0%nat) /\
    ((length val mod 3 = 1)%nat -> n = 2%nat) /\
    ((length val mod 3 = 2)%nat -> n = 1%nat).
Proof.
  intros Hb. pose proof (put_type_and_value_b64 t val Hb) as H. cbv zeta in H.
  eexists _, _. split; [exact H|]. split.
  - intros Hin.
    assert (Forall (fun c => c <> EQUALS)
              (fold_stream (Z.of_nat (length (c_str t)) + 3) (b64_raw val))) as HF.
    { apply fold_stream_Forall; [done|done|].
      eapply Forall_impl; [apply b64_raw_alphabet|]. intros c Hc ->.
      by apply (alphabet_forall (fun c => negb (c =? EQUALS))) in Hc. }
    rewrite Forall_forall in HF. apply elem_of_take in Hin as (i & Hi & _).
    by apply list_elem_of_lookup_2, HF in Hi.
  - unfold pad_count. repeat split; intros ->; done.
Qed.

Lemma base64_padding_law_witness :
  exists body n,
    put_type_and_value (bytes_of "cn") [200; 201] =
      c_str (bytes_of "cn") ++ [COLON; COLON; SPACE] ++ body
      ++ replicate n EQUALS ++ [NEWLINE] /\
    (EQUALS ∉ body) /\
    ((length [200; 201] mod 3 = 0)%nat -> n = 0%nat) /\
    ((length [200; 201] mod 3 = 1)%nat -> n = 2%nat) /\
    ((length [200; 201] mod 3 = 2)%nat -> n = 1%nat).
Proof. apply (base64_padding_law (bytes_of "cn") [200; 201]). reflexivity. Defined.

(** ** C6: the choice of the representation *)

Lemma isascii_spec c : isascii c = true <-> 0 <= c < 128.
Proof.
  unfold isascii. rewrite Z.eqb_eq, <- Z.ldiff_land.
  change 0x7f with (Z.ones 7). rewrite Z.ldiff_ones_r by lia.
  rewrite Z.shiftr_div_pow2, Z.shiftl_mul_pow2 by lia.
  change (2 ^ 7) with 128. split; intros H.
  - pose proof (Z.div_mod c 128 ltac:(lia)).
    pose proof (Z.mod_pos_bound c 128 ltac:(lia)). lia.
  - rewrite Z.div_small by lia. done.
Qed.

Lemma starts_special_spec val :
  starts_special val = true <->
  exists b rest, val = b :: rest /\
    (isspace b = true \/ b = COLON \/
     (isascii b = false /\ starts_special val = true)).
Proof.
  split.
  - intros H. destruct val as [|b rest]; [done|].
    exists b, rest. split; [done|].
    destruct (isascii b) eqn:Ha; [|auto].
    apply isascii_spec in Ha.
    unfold starts_special, rd, ISSPACE, char_of in H. simpl in H.
    rewrite Z.mod_small in H by lia.
    destruct (Z.ltb_spec b 128); [|lia].
    apply andb_true_iff in H as [_ H]. apply orb_true_iff in H as [H|H]; [auto|].
    apply Z.eqb_eq in H. auto.
  - intros (b & rest & -> & [H | [-> | [_ H]]]); [|done|done].
    apply isspace_byte in H as [Hs Hr].
    unfold starts_special, rd, char_of. simpl. rewrite Hs.
    destruct (Z.ltb_spec b 128); [|lia].
    rewrite (proj2 (isascii_spec b)) by lia. done.
Qed.

Lemma not_all_printable_spec val :
  negb (forallb printable val) = true <->
  Exists (fun b => isascii b = false \/ isprint b = false) val.
Proof.
  rewrite negb_true_iff. induction val as [|b val IH]; simpl.
  - split; [done|]. by intros H%Exists_nil.
  - rewrite Exists_cons, <- IH. unfold printable at 1.
    destruct (isascii b), (isprint b), (forallb printable val); simpl;
      intuition congruence.
Qed.

(** C6.  Base64 is selected exactly when the first byte of the value is
    white space or a colon, or some byte of the value is not ASCII or not
    printable.  A value of printable ASCII bytes that starts with neither
    white space nor a colon goes out on the plain path: the type, a colon,
    a space, and the value, folded. *)
Theorem representation_choice t val :
  (uses_base64 t val = true <->
     (exists b rest, val = b :: rest /\ (isspace b = true \/ b = COLON)) \/
     Exists (fun b => isascii b = false \/ isprint b = false) val) /\
  (Forall (fun b => isascii b = true /\ isprint b = true) val ->
   (forall b rest, val = b :: rest -> isspace b = false /\ b <> COLON) ->
   uses_base64 t val = false /\
   exists body,
     put_type_and_value t val = c_str t ++ [COLON; SPACE] ++ body ++ [NEWLINE] /\
     unfold body = val).
Proof.
  assert (uses_base64 t val = true <->
     (exists b rest, val = b :: rest /\ (isspace b = true \/ b = COLON)) \/
     Exists (fun b => isascii b = false \/ isprint b = false) val) as Hiff.
  { rewrite uses_base64_spec, orb_true_iff, not_all_printable_spec. split.
    - intros [H | H]; [|auto].
      apply starts_special_spec in H as (b & rest & -> & [H | [H | [H _]]]).
      + left. eauto.
      + left. eauto.
      + right. apply Exists_cons. auto.
    - intros [(b & rest & -> & H) | H]; [|auto].
      left. apply starts_special_spec. exists b, rest. split; [done|tauto]. }
  split; [exact Hiff|].
  intros Hp Hfirst.
  assert (uses_base64 t val = false) as Hb.
  { apply not_true_is_false. intros Hu.
    apply Hiff in Hu as [(b & rest & -> & H) | H].
    - destruct (Hfirst b rest eq_refl) as [H1 H2]. destruct H; congruence.
    - apply Exists_exists in H as (b & Hin & H).
      rewrite Forall_forall in Hp. destruct (Hp b Hin) as [H1 H2].
      destruct H; congruence. }
  split; [done|].
  eexists. split; [by apply put_type_and_value_plain|].
  apply unfold_fold_stream. eapply Forall_impl; [exact Hp|].
  intros b [_ H] ->. done.
Qed.

Lemma representation_choice_witness :
  uses_base64 (bytes_of "cn") (bytes_of "John Doe") = false /\
  exists body,
    put_type_and_value (bytes_of "cn") (bytes_of "John Doe") =
      c_str (bytes_of "cn") ++ [COLON; SPACE] ++ body ++ [NEWLINE] /\
    unfold body = bytes_of "John Doe".
Proof.
  apply (representation_choice (bytes_of "cn") (bytes_of "John Doe")).
  - repeat constructor.
  - intros b rest H. injection H as <- _. split; [reflexivity|discriminate].
Defined.

(** ** C10: the size of the buffer *)

Lemma pad_le_raw val :
  (pad_count (length val) <= length (b64_raw val))%nat.
Proof.
  unfold b64_raw. rewrite length_app, tail_digits_length.
  pose proof (leftover_pad val) as Hp.
  destruct (leftover val); cbn [length] in *; lia.
Qed.

Lemma pad_le_stream len val :
  (pad_count (length val) <= length (fold_stream len (b64_raw val)))%nat.
Proof. rewrite fold_stream_length. pose proof (pad_le_raw val). lia. Qed.

Lemma to_int_id z : INT_MIN <= z <= INT_MAX -> to_int z = z.
Proof.
  unfold INT_MIN, INT_MAX, to_int. intros H.
  rewrite Z.mod_small by lia. lia.
Qed.

Lemma size_fits_int_spec tlen vlen :
  size_fits_int tlen vlen = true ->
  0 <= tlen /\ 0 <= vlen /\ vlen * 4 <= INT_MAX /\
  size_needed_exact tlen vlen <= INT_MAX.
Proof.
  unfold size_fits_int, in_int. rewrite !andb_true_iff, !Z.leb_le. tauto.
Qed.

(** Without overflow the macro computes the size it stands for. *)
Lemma LDIF_SIZE_NEEDED_exact tlen vlen :
  size_fits_int tlen vlen = true ->
  LDIF_SIZE_NEEDED tlen vlen = size_needed_exact tlen vlen /\
  LDIF_SIZE_NEEDED tlen vlen =
    tlen + 4 + (vlen * 4 / 3 + 3)
    + (vlen * 4 / 3 + 3 + tlen + 3) / 76 * 2.
Proof.
  intros (Ht & Hv & H4 & Hs)%size_fits_int_spec.
  unfold size_needed_exact in Hs. unfold LDIF_SIZE_NEEDED, LDIF_BASE64_LEN,
    size_needed_exact, int_add, int_mul, int_div, LDIF_LINE_WIDTH in *.
  rewrite (Z.quot_div_nonneg (vlen * 4) 3) in * by lia.
  pose proof (Z.div_pos (vlen * 4) 3 ltac:(lia) ltac:(lia)) as Hq.
  set (q := vlen * 4 / 3) in *.
  rewrite (Z.quot_div_nonneg (q + 3 + tlen + 3) 76) in * by lia.
  pose proof (Z.div_pos (q + 3 + tlen + 3) 76 ltac:(lia) ltac:(lia)) as Hd.
  set (d := (q + 3 + tlen + 3) / 76) in *.
  assert (INT_MIN < 0) as Hmin by done.
  rewrite (to_int_id (vlen * 4)) by lia.
  rewrite (Z.quot_div_nonneg (vlen * 4) 3) by lia. fold q.
  rewrite (to_int_id q) by lia.
  rewrite (to_int_id (q + 3)) by lia.
  rewrite (to_int_id (tlen + 4)) by lia.
  rewrite (to_int_id (tlen + 4 + (q + 3))) by lia.
  rewrite (to_int_id (q + 3 + tlen)) by lia.
  rewrite (to_int_id (q + 3 + tlen + 3)) by lia.
  rewrite (Z.quot_div_nonneg (q + 3 + tlen + 3) 76) by lia. fold d.
  rewrite (to_int_id d) by lia.
  rewrite (to_int_id (d * 2)) by lia.
  rewrite (to_int_id (tlen + 4 + (q + 3) + d * 2)) by lia.
  done.
Qed.

Lemma fold_count_le len n :
  1 <= len -> 76 * Z.of_nat (fold_count len n) <= len + Z.of_nat n - 1.
Proof. intros H. pose proof (fold_count_bound len n H). lia. Qed.

(** The bytes stored on each path, against the exact size. *)
Lemma bytes_written_bound t val :
  let tlen := Z.of_nat (length (c_str t)) in
  let vlen := Z.of_nat (length val) in
  bytes_written t val <=
    tlen + 4 + (vlen * 4 / 3 + 3) + (vlen * 4 / 3 + 3 + tlen + 3) / 76 * 2 + 1.
Proof.
  intros tlen vlen.
  pose proof (Z.div_mod (vlen * 4) 3 ltac:(lia)) as Hq.
  pose proof (Z.mod_pos_bound (vlen * 4) 3 ltac:(lia)) as Hq'.
  set (q := vlen * 4 / 3) in *.
  pose proof (Z.div_mod (q + 3 + tlen + 3) 76 ltac:(lia)) as Hd.
  pose proof (Z.mod_pos_bound (q + 3 + tlen + 3) 76 ltac:(lia)) as Hd'.
  set (d := (q + 3 + tlen + 3) / 76) in *.
  assert (0 <= tlen) as Ht by lia. assert (0 <= vlen) as Hv by lia.
  (* the plain attempt *)
  assert (Z.of_nat (length (ps_out (put_plain t val))) + 2
          <= tlen + 4 + (q + 3) + d * 2 + 1) as Hplain.
  { rewrite put_plain_out, !length_app. cbn [length].
    destruct (starts_special val); cbn [length]; [lia|].
    rewrite fold_stream_length.
    pose proof (printable_prefix_length val) as Hn.
    pose proof (fold_count_le (tlen + 1) (length (printable_prefix val)) ltac:(lia)).
    fold tlen. lia. }
  unfold bytes_written.
  destruct (uses_base64 t val) eqn:Hb.
  - rewrite (put_type_and_value_b64 t val Hb). cbv zeta.
    fold tlen. set (stream := fold_stream (tlen + 3) (b64_raw val)).
    assert (Z.of_nat (length stream) <= q + 3 + d * 2) as Hstream.
    { unfold stream. rewrite fold_stream_length, b64_raw_length.
      pose proof (fold_count_le (tlen + 3) (4 * ((length val + 2) / 3))
                    ltac:(lia)) as Hf.
      pose proof (Nat.div_mod_eq (length val + 2) 3) as Hk.
      pose proof (Nat.mod_upper_bound (length val + 2) 3 ltac:(lia)) as Hk'.
      set (k := ((length val + 2) / 3)%nat) in *. lia. }
    pose proof (pad_le_stream (tlen + 3) val) as Hpad. fold stream in Hpad.
    rewrite !length_app, length_take, length_replicate. cbn [length]. lia.
  - rewrite (put_type_and_value_plain t val Hb).
    fold tlen. rewrite !length_app. cbn [length].
    rewrite fold_stream_length.
    pose proof (fold_count_le (tlen + 1) (length val) ltac:(lia)). lia.
Qed.

(** C10.  When no operation of the size computation overflows,
    [ldif_type_and_value] requests [LDIF_SIZE_NEEDED(strlen(type), vlen) + 1]
    bytes, and the bytes stored by [put_type_and_value], the final NUL
    included, fit in them. *)
Theorem allocation_is_never_overrun t val :
  size_fits_int (Z.of_nat (length (c_str t))) (Z.of_nat (length val)) = true ->
  exists bufsize,
    ldif_bufsize (to_int (Z.of_nat (length (c_str t))))
                 (to_int (Z.of_nat (length val))) = Some bufsize /\
    bufsize =
      LDIF_SIZE_NEEDED (Z.of_nat (length (c_str t))) (Z.of_nat (length val)) + 1 /\
    bytes_written t val <= bufsize.
Proof.
  intros Hfit.
  destruct (LDIF_SIZE_NEEDED_exact _ _ Hfit) as [Hex Hval].
  apply size_fits_int_spec in Hfit as (Ht & Hv & H4 & Hs).
  set (tlen := Z.of_nat (length (c_str t))) in *.
  set (vlen := Z.of_nat (length val)) in *.
  pose proof (bytes_written_bound t val) as Hw. cbv zeta in Hw.
  fold tlen vlen in Hw. rewrite <- Hval in Hw.
  assert (tlen <= LDIF_SIZE_NEEDED tlen vlen) as Htl.
  { rewrite Hval.
    pose proof (Z.div_pos (vlen * 4) 3 ltac:(lia) ltac:(lia)).
    pose proof (Z.div_pos (vlen * 4 / 3 + 3 + tlen + 3) 76 ltac:(lia) ltac:(lia)).
    lia. }
  assert (INT_MIN < 0) as Hmin by done.
  assert (INT_MAX < 2 ^ 64 - 1) as Hmax by done.
  exists (LDIF_SIZE_NEEDED tlen vlen + 1). split; [|split; [done|lia]].
  rewrite (to_int_id tlen), (to_int_id vlen) by lia.
  unfold ldif_bufsize, to_size_t.
  rewrite (Z.mod_small (LDIF_SIZE_NEEDED tlen vlen)) by lia.
  rewrite Z.mod_small by lia.
  destruct (Z.leb_spec (LDIF_SIZE_NEEDED tlen vlen + 1) (LDIF_SIZE_NEEDED tlen vlen));
    [lia|done].
Qed.

Lemma allocation_is_never_overrun_witness :
  exists bufsize,
    ldif_bufsize (to_int (Z.of_nat (length (c_str (bytes_of "cn")))))
                 (to_int (Z.of_nat (length (replicate 200 255)))) = Some bufsize /\
    bufsize =
      LDIF_SIZE_NEEDED (Z.of_nat (length (c_str (bytes_of "cn"))))
                       (Z.of_nat (length (replicate 200 255))) + 1 /\
    bytes_written (bytes_of "cn") (replicate 200 255) <= bufsize.
Proof.
  apply (allocation_is_never_overrun (bytes_of "cn") (replicate 200 255)).
  reflexivity.
Defined.

(** ** The base64 loop of the decoder *)

Lemma rd_insert_ne (l : list Z) i j x : i <> j -> rd (<[i:=x]> l) j = rd l j.
Proof. intros H. unfold rd. by rewrite list_lookup_insert_ne. Qed.

Lemma rd_insert_eq (l : list Z) i x : (i < length l)%nat -> rd (<[i:=x]> l) i = x.
Proof. intros H. unfold rd. by rewrite list_lookup_insert_eq. Qed.

Lemma rd_in_range (l : list Z) i : rd l i <> NUL -> (i < length l)%nat.
Proof.
  unfold rd. intros H. destruct (l !! i) eqn:E.
  - by apply lookup_lt_Some in E.
  - done.
Qed.

Lemma bad_b64_char_nul c : bad_b64_char c = false -> c <> NUL.
Proof. intros H ->. done. Qed.

(** The reads of one round see the text as it was: [byte] never runs
    ahead of [p]. *)
Lemma b64_group_spec buf p byte :
  (byte <= p)%nat ->
  b64_group buf p byte =
    let c0 := rd buf p in let c1 := rd buf (p + 1) in
    let c2 := rd buf (p + 2) in let c3 := rd buf (p + 3) in
    if bad_b64_char c0 || bad_b64_char c1 || bad_b64_char c2 then GroupBad
    else
      let b0 := byte0 (nibble c0) (nibble c1) in
      if c2 =? EQUALS then
        GroupBreak (<[(byte + 1)%nat := byte1_first (nibble c1)]> (<[byte := b0]> buf)) 1
      else
        let b1 := byte1 (nibble c1) (nibble c2) in
        if c3 =? EQUALS then
          GroupBreak (<[(byte + 2)%nat := byte2_first (nibble c2)]>
                        (<[(byte + 1)%nat := b1]> (<[byte := b0]> buf))) 2
        else
          GroupNext (<[(byte + 2)%nat := byte2 (nibble c2) (nibble c3)]>
                       (<[(byte + 1)%nat := b1]> (<[byte := b0]> buf))).
Proof.
  intros Hle. unfold b64_group. cbv zeta.
  destruct (bad_b64_char (rd buf p)) eqn:E0; [done|].
  destruct (bad_b64_char (rd buf (p + 1))) eqn:E1; [done|].
  destruct (bad_b64_char (rd buf (p + 2))) eqn:E2; [done|].
  cbn [orb].
  apply bad_b64_char_nul, rd_in_range in E0, E1, E2.
  rewrite !(rd_insert_ne _ byte (p + 1)) by lia.
  rewrite (rd_insert_eq _ byte) by lia.
  rewrite list_insert_insert_eq.
  rewrite !(rd_insert_ne _ _ (p + 2)) by lia.
  destruct (rd buf (p + 2) =? EQUALS); [done|].
  rewrite (rd_insert_eq _ (byte + 1)) by (rewrite length_insert; lia).
  rewrite list_insert_insert_eq.
  rewrite !(rd_insert_ne _ _ (p + 3)) by lia.
  destruct (rd buf (p + 3) =? EQUALS); [done|].
  rewrite (rd_insert_eq _ (byte + 2)) by (rewrite !length_insert; lia).
  rewrite list_insert_insert_eq. done.
Qed.

Lemma drop_cons_inv (l : list Z) p c rest :
  drop p l = c :: rest ->
  rd l p = c /\ drop (S p) l = rest /\ (p < length l)%nat.
Proof.
  intros H. split; [|split].
  - unfold rd. replace p with (p + 0)%nat by lia. by rewrite <- lookup_drop, H.
  - replace (S p) with (p + 1)%nat by lia. by rewrite <- drop_drop, H.
  - destruct (decide (p < length l)%nat); [done|].
    rewrite drop_ge in H by lia. done.
Qed.

Lemma take_S_insert (l : list Z) i x :
  (i < length l)%nat -> take (S i) (<[i:=x]> l) = take i l ++ [x].
Proof.
  intros H. rewrite (take_S_r _ _ x) by (by apply list_lookup_insert_eq).
  by rewrite take_insert_ge.
Qed.

Lemma is_full_group_spec c0 c1 c2 c3 :
  is_full_group [c0; c1; c2; c3] = true ->
  bad_b64_char c0 = false /\ bad_b64_char c1 = false /\
  bad_b64_char c2 = false /\ (c2 =? EQUALS) = false /\
  (c3 =? EQUALS) = false /\ c3 <> NUL.
Proof.
  unfold is_full_group. rewrite !andb_true_iff, !negb_true_iff.
  intros [[[[[? ?] ?] ?] ?] Hn]. repeat split; try done.
  by apply Z.eqb_neq.
Qed.

(** One round on a full group: three bytes stored at [byte], [p] four
    characters further. *)
Lemma b64_loop_full fuel buf p byte vlen stop c0 c1 c2 c3 rest :
  (byte <= p)%nat -> (p < stop)%nat ->
  drop p buf = c0 :: c1 :: c2 :: c3 :: rest ->
  is_full_group [c0; c1; c2; c3] = true ->
  exists buf',
    b64_loop (S fuel) buf p byte vlen stop =
      b64_loop fuel buf' (p + 4) (byte + 3) (vlen + 3) stop /\
    length buf' = length buf /\
    drop (p + 4) buf' = rest /\
    take (byte + 3) buf' = take byte buf ++ group_bytes c0 c1 c2 c3.
Proof.
  intros Hle Hp Hd (B0 & B1 & B2 & E2 & E3 & _)%is_full_group_spec.
  apply drop_cons_inv in Hd as (R0 & Hd & L0).
  apply drop_cons_inv in Hd as (R1 & Hd & L1).
  apply drop_cons_inv in Hd as (R2 & Hd & L2).
  apply drop_cons_inv in Hd as (R3 & Hd & L3).
  replace (S p) with (p + 1)%nat in * by lia.
  replace (S (p + 1)) with (p + 2)%nat in * by lia.
  replace (S (p + 2)) with (p + 3)%nat in * by lia.
  replace (S (p + 3)) with (p + 4)%nat in * by lia.
  cbn [b64_loop]. apply Nat.ltb_lt in Hp as ->.
  rewrite b64_group_spec by done. cbv zeta.
  rewrite R0, R1, R2, R3, B0, B1, B2, E2, E3. cbn [orb].
  eexists. split; [reflexivity|]. split; [by rewrite !length_insert|]. split.
  - rewrite !drop_insert_lt by lia. done.
  - replace (byte + 3)%nat with (S (byte + 2)) by lia.
    rewrite take_S_insert by (rewrite !length_insert; lia).
    replace (byte + 2)%nat with (S (byte + 1)) by lia.
    rewrite take_S_insert by (rewrite !length_insert; lia).
    replace (byte + 1)%nat with (S byte) by lia.
    rewrite take_S_insert by lia.
    by rewrite <- !app_assoc.
Qed.

(** The round that meets ['='] in the third position. *)
Lemma b64_loop_break1 fuel buf p byte vlen stop c0 c1 rest :
  (byte <= p)%nat -> (p < stop)%nat ->
  drop p buf = c0 :: c1 :: EQUALS :: rest ->
  bad_b64_char c0 = false -> bad_b64_char c1 = false ->
  exists buf',
    b64_loop (S fuel) buf p byte vlen stop = Some (buf', vlen + 1) /\
    length buf' = length buf /\
    take (byte + 1) buf' = take byte buf ++ [byte0 (nibble c0) (nibble c1)].
Proof.
  intros Hle Hp Hd B0 B1.
  apply drop_cons_inv in Hd as (R0 & Hd & L0).
  apply drop_cons_inv in Hd as (R1 & Hd & L1).
  apply drop_cons_inv in Hd as (R2 & Hd & L2).
  replace (S p) with (p + 1)%nat in * by lia.
  replace (S (p + 1)) with (p + 2)%nat in * by lia.
  cbn [b64_loop]. apply Nat.ltb_lt in Hp as ->.
  rewrite b64_group_spec by done. cbv zeta.
  rewrite R0, R1, R2, B0, B1. cbn.
  eexists. split; [reflexivity|]. split; [by rewrite !length_insert|].
  rewrite take_insert_ge by lia.
  replace (byte + 1)%nat with (S byte) by lia.
  by rewrite take_S_insert by lia.
Qed.

(** The round that meets ['='] in the fourth position. *)
Lemma b64_loop_break2 fuel buf p byte vlen stop c0 c1 c2 rest :
  (byte <= p)%nat -> (p < stop)%nat ->
  drop p buf = c0 :: c1 :: c2 :: EQUALS :: rest ->
  bad_b64_char c0 = false -> bad_b64_char c1 = false ->
  bad_b64_char c2 = false -> c2 <> EQUALS ->
  exists buf',
    b64_loop (S fuel) buf p byte vlen stop = Some (buf', vlen + 2) /\
    length buf' = length buf /\
    take (byte + 2) buf' =
      take byte buf ++ [byte0 (nibble c0) (nibble c1); byte1 (nibble c1) (nibble c2)].
Proof.
  intros Hle Hp Hd B0 B1 B2 E2%Z.eqb_neq.
  apply drop_cons_inv in Hd as (R0 & Hd & L0).
  apply drop_cons_inv in Hd as (R1 & Hd & L1).
  apply drop_cons_inv in Hd as (R2 & Hd & L2).
  apply drop_cons_inv in Hd as (R3 & Hd & L3).
  replace (S p) with (p + 1)%nat in * by lia.
  replace (S (p + 1)) with (p + 2)%nat in * by lia.
  replace (S (p + 2)) with (p + 3)%nat in * by lia.
  cbn [b64_loop]. apply Nat.ltb_lt in Hp as ->.
  rewrite b64_group_spec by done. cbv zeta.
  rewrite R0, R1, R2, R3, B0, B1, B2, E2. cbn.
  eexists. split; [reflexivity|]. split; [by rewrite !length_insert|].
  rewrite take_insert_ge by lia.
  replace (byte + 2)%nat with (S (byte + 1)) by lia.
  rewrite take_S_insert by (rewrite !length_insert; lia).
  replace (byte + 1)%nat with (S byte) by lia.
  rewrite take_S_insert by lia.
  by rewrite <- !app_assoc.
Qed.

(** ** C8: the length of a decoded base64 value *)

Lemma c_str_app a b : NUL ∉ a -> c_str (a ++ b) = a ++ c_str b.
Proof.
  induction a as [|c a IH]; simpl; [done|].
  intros Hn. apply not_elem_of_cons in Hn as [Hc Ha].
  destruct (Z.eqb_spec c NUL); [congruence|]. by rewrite IH.
Qed.

Lemma c_str_cons c l : c <> NUL -> c_str (c :: l) = c :: c_str l.
Proof. intros H. simpl. by destruct (Z.eqb_spec c NUL). Qed.

Lemma is_full_group_inv g :
  is_full_group g = true -> exists c0 c1 c2 c3, g = [c0; c1; c2; c3].
Proof. destruct g as [|c0 [|c1 [|c2 [|c3 [|? ?]]]]]; try done. eauto. Qed.

Lemma full_groups_no_nul groups :
  forallb is_full_group groups = true -> NUL ∉ concat groups.
Proof.
  induction groups as [|g groups IH]; simpl; [intros _; apply not_elem_of_nil|].
  intros [Hg Hgs]%andb_true_iff.
  destruct (is_full_group_inv g Hg) as (c0 & c1 & c2 & c3 & ->).
  apply is_full_group_spec in Hg as (B0 & B1 & B2 & _ & _ & N3).
  apply bad_b64_char_nul in B0, B1, B2.
  rewrite not_elem_of_app, !not_elem_of_cons. repeat split; auto.
  apply not_elem_of_nil.
Qed.

Lemma full_groups_length groups :
  forallb is_full_group groups = true ->
  length (concat groups) = (4 * length groups)%nat.
Proof.
  induction groups as [|g groups IH]; simpl; [done|].
  intros [Hg Hgs]%andb_true_iff.
  destruct (is_full_group_inv g Hg) as (c0 & c1 & c2 & c3 & ->).
  rewrite length_app, IH by done. simpl. lia.
Qed.

(** The rounds on full groups: each adds 3 to [*vlen]. *)
Lemma b64_loop_groups groups :
  forallb is_full_group groups = true ->
  forall fuel buf p byte vlen stop tail,
    (byte <= p)%nat -> (p + 4 * length groups <= stop)%nat ->
    drop p buf = concat groups ++ tail ->
    exists buf',
      b64_loop (length groups + fuel) buf p byte vlen stop =
        b64_loop fuel buf' (p + 4 * length groups) (byte + 3 * length groups)
          (vlen + 3 * Z.of_nat (length groups)) stop /\
      length buf' = length buf /\
      drop (p + 4 * length groups) buf' = tail.
Proof.
  induction groups as [|g groups IH]; intros Hall fuel buf p byte vlen stop tail
    Hle Hstop Hd.
  - exists buf. simpl. rewrite !Nat.add_0_r, Z.add_0_r. done.
  - simpl in Hall. apply andb_true_iff in Hall as [Hg Hgs].
    destruct (is_full_group_inv g Hg) as (c0 & c1 & c2 & c3 & ->).
    cbn [length] in *. simpl in Hd.
    destruct (b64_loop_full (length groups + fuel) buf p byte vlen stop
                c0 c1 c2 c3 (concat groups ++ tail))
      as (buf1 & Hrun & Hlen1 & Hd1 & _); [lia|lia|done|done|].
    destruct (IH Hgs fuel buf1 (p + 4)%nat (byte + 3)%nat (vlen + 3) stop tail)
      as (buf2 & Hrun2 & Hlen2 & Hd2); [lia|lia|done|].
    exists buf2.
    replace (p + 4 * S (length groups))%nat
      with (p + 4 + 4 * length groups)%nat by lia.
    replace (byte + 3 * S (length groups))%nat
      with (byte + 3 + 3 * length groups)%nat by lia.
    replace (vlen + 3 * Z.of_nat (S (length groups)))
      with (vlen + 3 + 3 * Z.of_nat (length groups)) by lia.
    change (S (length groups) + fuel)%nat with (S (length groups + fuel)).
    rewrite Hrun, Hrun2. split; [done|]. split; [congruence|done].
Qed.

(** C8.  After [k] full groups [*vlen] is [3k]; a group with ['='] in the
    third position ends the decoding, whatever follows it, and adds 1; a
    group with ['='] in the fourth position ends it and adds 2.  The
    value returned has [*vlen] bytes.  "cn:: Sm9obiBEb2U=" decodes to
    ("cn", "John Doe", 8). *)
Theorem b64_vlen_contributions :
  (forall groups,
     forallb is_full_group groups = true ->
     exists value,
       b64_decode (concat groups) =
         Some (value, 3 * Z.of_nat (length groups)) /\
       length value = (3 * length groups)%nat) /\
  (forall groups c0 c1 rest,
     forallb is_full_group groups = true ->
     bad_b64_char c0 = false -> bad_b64_char c1 = false ->
     exists value,
       b64_decode (concat groups ++ c0 :: c1 :: EQUALS :: rest) =
         Some (value, 3 * Z.of_nat (length groups) + 1) /\
       length value = (3 * length groups + 1)%nat) /\
  (forall groups c0 c1 c2 rest,
     forallb is_full_group groups = true ->
     bad_b64_char c0 = false -> bad_b64_char c1 = false ->
     bad_b64_char c2 = false -> c2 <> EQUALS ->
     exists value,
       b64_decode (concat groups ++ c0 :: c1 :: c2 :: EQUALS :: rest) =
         Some (value, 3 * Z.of_nat (length groups) + 2) /\
       length value = (3 * length groups + 2)%nat) /\
  str_parse_line (bytes_of "cn:: Sm9obiBEb2U=") =
    ParseOk (bytes_of "cn") (bytes_of "John Doe") 8.
Proof.
  split; [|split; [|split]].
  - intros groups Hall. unfold b64_decode.
    pose proof (full_groups_length groups Hall) as Hlen.
    rewrite c_str_id by (by apply full_groups_no_nul). rewrite Hlen.
    destruct (b64_loop_groups groups Hall 1 (concat groups) 0 0 0
                (4 * length groups) [])
      as (buf & Hrun & Hl & Hd); [lia|lia|by rewrite app_nil_r|].
    replace (S (4 * length groups)) with (length groups + S (3 * length groups))%nat by lia.
    destruct (b64_loop_groups groups Hall (S (3 * length groups)) (concat groups) 0 0 0
                (4 * length groups) [])
      as (buf' & Hrun' & Hl' & Hd'); [lia|lia|by rewrite app_nil_r|].
    rewrite Hrun'. cbn [b64_loop]. rewrite Nat.ltb_irrefl.
    eexists. split; [reflexivity|]. rewrite length_take. lia.
  - intros groups c0 c1 rest Hall B0 B1. unfold b64_decode.
    pose proof (full_groups_length groups Hall) as Hlen.
    pose proof (bad_b64_char_nul _ B0) as N0.
    rewrite c_str_app by (by apply full_groups_no_nul).
    rewrite length_app, Hlen, c_str_cons by done. cbn [length].
    set (stop := (4 * length groups + S (length (c_str (c1 :: EQUALS :: rest))))%nat).
    replace (S stop) with (length groups + S (stop - length groups))%nat by lia.
    destruct (b64_loop_groups groups Hall (S (stop - length groups))
                (concat groups ++ c0 :: c1 :: EQUALS :: rest) 0 0 0 stop
                (c0 :: c1 :: EQUALS :: rest))
      as (buf & Hrun & Hl & Hd); [lia|lia|done|].
    rewrite Hrun.
    destruct (b64_loop_break1 (stop - length groups) buf (0 + 4 * length groups)
                (0 + 3 * length groups) (0 + 3 * Z.of_nat (length groups)) stop
                c0 c1 rest)
      as (buf' & Hrun' & Hl' & _); [lia|lia|done|done|done|].
    rewrite Hrun'. eexists. split; [reflexivity|].
    rewrite length_take, Hl', Hl, length_app, Hlen. cbn [length]. lia.
  - intros groups c0 c1 c2 rest Hall B0 B1 B2 E2. unfold b64_decode.
    pose proof (full_groups_length groups Hall) as Hlen.
    pose proof (bad_b64_char_nul _ B0) as N0.
    rewrite c_str_app by (by apply full_groups_no_nul).
    rewrite length_app, Hlen, c_str_cons by done. cbn [length].
    set (stop := (4 * length groups
                  + S (length (c_str (c1 :: c2 :: EQUALS :: rest))))%nat).
    replace (S stop) with (length groups + S (stop - length groups))%nat by lia.
    destruct (b64_loop_groups groups Hall (S (stop - length groups))
                (concat groups ++ c0 :: c1 :: c2 :: EQUALS :: rest) 0 0 0 stop
                (c0 :: c1 :: c2 :: EQUALS :: rest))
      as (buf & Hrun & Hl & Hd); [lia|lia|done|].
    rewrite Hrun.
    destruct (b64_loop_break2 (stop - length groups) buf (0 + 4 * length groups)
                (0 + 3 * length groups) (0 + 3 * Z.of_nat (length groups)) stop
                c0 c1 c2 rest)
      as (buf' & Hrun' & Hl' & _); [lia|lia|done|done|done|done|done|].
    rewrite Hrun'. eexists. split; [reflexivity|].
    rewrite length_take, Hl', Hl, length_app, Hlen. cbn [length]. lia.
  - vm_compute. reflexivity.
Qed.

Lemma b64_vlen_contributions_witness :
  (exists value,
     b64_decode (concat [bytes_of "Sm9o"; bytes_of "biBE"]) =
       Some (value, 3 * Z.of_nat (length [bytes_of "Sm9o"; bytes_of "biBE"])) /\
     length value = (3 * length [bytes_of "Sm9o"; bytes_of "biBE"])%nat) /\
  (exists value,
     b64_decode (concat [bytes_of "Sm9o"] ++ 83 :: 103 :: EQUALS :: bytes_of "=junk") =
       Some (value, 3 * Z.of_nat (length [bytes_of "Sm9o"]) + 1) /\
     length value = (3 * length [bytes_of "Sm9o"] + 1)%nat) /\
  (exists value,
     b64_decode (concat [bytes_of "Sm9o"; bytes_of "biBE"]
                 ++ 98 :: 50 :: 85 :: EQUALS :: []) =
       Some (value, 3 * Z.of_nat (length [bytes_of "Sm9o"; bytes_of "biBE"]) + 2) /\
     length value = (3 * length [bytes_of "Sm9o"; bytes_of "biBE"] + 2)%nat).
Proof.
  destruct b64_vlen_contributions as (H0 & H1 & H2 & _).
  split; [|split].
  - apply H0. reflexivity.
  - apply H1; reflexivity.
  - apply H2; [reflexivity|reflexivity|reflexivity|reflexivity|discriminate].
Defined.

(** ** Base64 arithmetic *)

Lemma land_shifted_low a n b :
  0 <= n -> 0 <= b < 2 ^ n -> Z.land (a * 2 ^ n) b = 0.
Proof.
  intros Hn Hb. apply Z.bits_inj'. intros m Hm.
  rewrite Z.land_spec, Z.bits_0.
  destruct (Z.lt_ge_cases m n).
  - by rewrite Z.mul_pow2_bits_low.
  - rewrite <- (Z.mod_small b (2 ^ n)) by lia.
    rewrite Z.mod_pow2_bits_high by lia. apply andb_false_r.
Qed.

Lemma lor_shifted_low a n b :
  0 <= n -> 0 <= b < 2 ^ n -> Z.lor (a * 2 ^ n) b = a * 2 ^ n + b.
Proof.
  intros Hn Hb. pose proof (land_shifted_low a n b Hn Hb) as H.
  rewrite <- Z.lxor_lor by done. symmetry. by apply Z.add_nocarry_lxor.
Qed.

Lemma pack3_spec b0 b1 b2 :
  is_byte b0 -> is_byte b1 -> is_byte b2 ->
  pack3 b0 b1 b2 = b0 * 65536 + b1 * 256 + b2.
Proof.
  unfold is_byte, pack3. intros H0 H1 H2.
  change 0xff with (Z.ones 8). rewrite !Z.land_ones by lia.
  change (2 ^ 8) with 256. rewrite !Z.mod_small by lia.
  rewrite !Z.shiftl_mul_pow2 by lia.
  rewrite (lor_shifted_low b0 16 (b1 * 2 ^ 8)) by lia.
  replace (b0 * 2 ^ 16 + b1 * 2 ^ 8) with ((b0 * 2 ^ 8 + b1) * 2 ^ 8) by lia.
  rewrite lor_shifted_low by lia. lia.
Qed.

Lemma digit_index_spec bits :
  Z.shiftr (Z.land bits 0xfc0000) 18 = (bits / 262144) mod 64.
Proof.
  rewrite Z.shiftr_land. change (Z.shiftr 0xfc0000 18) with (Z.ones 6).
  rewrite Z.land_ones, Z.shiftr_div_pow2 by lia. done.
Qed.

(** The four digits of three bytes. *)
Lemma digits4_spec b0 b1 b2 :
  is_byte b0 -> is_byte b1 -> is_byte b2 ->
  digits 4 (pack3 b0 b1 b2) =
    [ tbl nib2b64 (b0 / 4); tbl nib2b64 (b0 mod 4 * 16 + b1 / 16);
      tbl nib2b64 (b1 mod 16 * 4 + b2 / 64); tbl nib2b64 (b2 mod 64) ].
Proof.
  intros H0 H1 H2. rewrite pack3_spec by done. unfold is_byte in *.
  set (bits := b0 * 65536 + b1 * 256 + b2).
  assert (0 <= bits < 16777216) as Hb by (unfold bits; lia).
  cbn [digits]. unfold to_ulong. rewrite !Z.shiftl_mul_pow2 by lia.
  change (2 ^ 6) with 64. change (2 ^ 64) with 18446744073709551616.
  rewrite (Z.mod_small (bits * 64)) by lia.
  rewrite (Z.mod_small (bits * 64 * 64)) by lia.
  rewrite (Z.mod_small (bits * 64 * 64 * 64)) by lia.
  rewrite !digit_index_spec.
  repeat match goal with
         | |- _ :: _ = _ :: _ =>
             apply f_equal2;
             [apply (f_equal (tbl nib2b64)); unfold bits;
              Z.div_mod_to_equations; lia|]
         end.
  done.
Qed.

Lemma range64 (P : Z -> bool) :
  forallb (fun n => P (Z.of_nat n)) (seq 0 64) = true ->
  forall i, 0 <= i < 64 -> P i = true.
Proof.
  intros H i Hi. rewrite forallb_forall in H.
  specialize (H (Z.to_nat i)). rewrite Z2Nat.id in H by lia.
  apply H, in_seq. lia.
Qed.

(** [b642nib] inverts [nib2b64]. *)
Lemma nibble_digit i : 0 <= i < 64 -> nibble (tbl nib2b64 i) = i.
Proof.
  intros Hi. apply Z.eqb_eq.
  by apply (range64 (fun i => nibble (tbl nib2b64 i) =? i)).
Qed.

Lemma digit_ok_tbl i : 0 <= i < 64 -> digit_ok (tbl nib2b64 i) = true.
Proof.
  intros Hi. apply (alphabet_forall digit_ok); [done|].
  apply tbl_elem. simpl. lia.
Qed.

Lemma digit_ok_spec c :
  digit_ok c = true ->
  bad_b64_char c = false /\ c <> EQUALS /\ c <> NUL /\
  c <> CONTINUED_LINE_MARKER /\ c <> NEWLINE /\ ISSPACE c = false.
Proof.
  unfold digit_ok. rewrite !andb_true_iff, !negb_true_iff, !Z.eqb_neq. tauto.
Qed.

(** A store of [k * 2^n], read back as a [char] and or-ed with [r]. *)
Lemma store_or n k r :
  n = 2 \/ n = 4 \/ n = 6 ->
  0 <= k * 2 ^ n < 256 -> 0 <= r < 2 ^ n ->
  to_byte (Z.lor (char_of (to_byte (k * 2 ^ n))) r) = k * 2 ^ n + r.
Proof.
  intros Hn Hk Hr. unfold to_byte at 2. rewrite Z.mod_small by lia.
  unfold char_of, to_byte.
  destruct (Z.ltb_spec (k * 2 ^ n) 128).
  - rewrite lor_shifted_low by lia.
    destruct Hn as [-> | [-> | ->]]; rewrite Z.mod_small; lia.
  - replace (k * 2 ^ n - 256) with ((k - 2 ^ (8 - n)) * 2 ^ n).
    2:{ destruct Hn as [-> | [-> | ->]]; simpl; lia. }
    rewrite lor_shifted_low by lia.
    destruct Hn as [-> | [-> | ->]]; simpl in *;
      Z.div_mod_to_equations; lia.
Qed.

Lemma byte0_spec b0 b1 :
  is_byte b0 -> is_byte b1 -> byte0 (b0 / 4) (b0 mod 4 * 16 + b1 / 16) = b0.
Proof.
  unfold is_byte, byte0. intros H0 H1.
  rewrite Z.shiftl_mul_pow2, Z.shiftr_div_pow2 by lia.
  rewrite store_or; [|auto| |]; change (2 ^ 2) with 4; change (2 ^ 4) with 16;
    Z.div_mod_to_equations; lia.
Qed.

Lemma byte1_spec b0 b1 b2 :
  is_byte b0 -> is_byte b1 -> is_byte b2 ->
  byte1 (b0 mod 4 * 16 + b1 / 16) (b1 mod 16 * 4 + b2 / 64) = b1.
Proof.
  unfold is_byte, byte1, byte1_first, RIGHT4. intros H0 H1 H2.
  change 0x0f with (Z.ones 4). rewrite Z.land_ones by lia.
  rewrite Z.shiftl_mul_pow2, Z.shiftr_div_pow2 by lia.
  rewrite store_or; [|auto| |]; change (2 ^ 2) with 4; change (2 ^ 4) with 16;
    Z.div_mod_to_equations; lia.
Qed.

Lemma byte2_spec b1 b2 :
  is_byte b1 -> is_byte b2 ->
  byte2 (b1 mod 16 * 4 + b2 / 64) (b2 mod 64) = b2.
Proof.
  unfold is_byte, byte2, byte2_first, RIGHT2. intros H1 H2.
  change 0x03 with (Z.ones 2). rewrite Z.land_ones by lia.
  rewrite Z.shiftl_mul_pow2 by lia.
  rewrite store_or; [|auto| |]; change (2 ^ 2) with 4; change (2 ^ 6) with 64;
    Z.div_mod_to_equations; lia.
Qed.

(** ** Decoding the base64 text of a value *)

Lemma pad_count_add3 n : pad_count (3 + n) = pad_count n.
Proof.
  unfold pad_count. replace (3 + n)%nat with (n + 1 * 3)%nat by lia.
  by rewrite Nat.Div0.mod_add.
Qed.

Lemma b64_text_nil : b64_text [] = [].
Proof. reflexivity. Qed.

Lemma b64_text_group a b c l :
  b64_text (a :: b :: c :: l) = digits 4 (pack3 a b c) ++ b64_text l.
Proof.
  unfold b64_text. cbv zeta.
  change (length (a :: b :: c :: l)) with (3 + length l)%nat.
  rewrite pad_count_add3.
  change (b64_raw (a :: b :: c :: l)) with
    (digits 4 (pack3 a b c) ++ b64_raw l).
  pose proof (pad_le_raw l) as Hpad.
  rewrite length_app, digits_length.
  replace (4 + length (b64_raw l) - pad_count (length l))%nat
    with (length (digits 4 (pack3 a b c))
          + (length (b64_raw l) - pad_count (length l)))%nat
    by (rewrite digits_length; lia).
  rewrite take_app_add. by rewrite <- app_assoc.
Qed.

Lemma b64_text_one a :
  is_byte a ->
  b64_text [a] =
    [tbl nib2b64 (a / 4); tbl nib2b64 (a mod 4 * 16 + 0 / 16); EQUALS; EQUALS].
Proof.
  intros Ha. unfold b64_text, b64_raw. cbn [full_text leftover app].
  unfold tail_digits. change (rd ([a] ++ replicate (3 - length [a]) NUL) 0) with a.
  change (rd ([a] ++ replicate (3 - length [a]) NUL) 1) with 0.
  change (rd ([a] ++ replicate (3 - length [a]) NUL) 2) with 0.
  rewrite digits4_spec by (unfold is_byte in *; lia). done.
Qed.

Lemma b64_text_two a b :
  is_byte a -> is_byte b ->
  b64_text [a; b] =
    [tbl nib2b64 (a / 4); tbl nib2b64 (a mod 4 * 16 + b / 16);
     tbl nib2b64 (b mod 16 * 4 + 0 / 64); EQUALS].
Proof.
  intros Ha Hb. unfold b64_text, b64_raw. cbn [full_text leftover app].
  unfold tail_digits.
  change (rd ([a; b] ++ replicate (3 - length [a; b]) NUL) 0) with a.
  change (rd ([a; b] ++ replicate (3 - length [a; b]) NUL) 1) with b.
  change (rd ([a; b] ++ replicate (3 - length [a; b]) NUL) 2) with 0.
  rewrite digits4_spec by (unfold is_byte in *; lia). done.
Qed.

Lemma b64_text_length val :
  length (b64_text val) = (4 * ((length val + 2) / 3))%nat.
Proof.
  unfold b64_text. cbv zeta.
  pose proof (pad_le_raw val) as Hpad.
  rewrite length_app, length_take, length_replicate, <- b64_raw_length. lia.
Qed.

Lemma digits4_full_group b0 b1 b2 :
  is_byte b0 -> is_byte b1 -> is_byte b2 ->
  exists d0 d1 d2 d3,
    digits 4 (pack3 b0 b1 b2) = [d0; d1; d2; d3] /\
    is_full_group [d0; d1; d2; d3] = true /\
    group_bytes d0 d1 d2 d3 = [b0; b1; b2].
Proof.
  intros H0 H1 H2. rewrite digits4_spec by done.
  eexists _, _, _, _. split; [reflexivity|].
  assert (0 <= b0 / 4 < 64) as R0 by digit_range.
  assert (0 <= b0 mod 4 * 16 + b1 / 16 < 64) as R1 by digit_range.
  assert (0 <= b1 mod 16 * 4 + b2 / 64 < 64) as R2 by digit_range.
  assert (0 <= b2 mod 64 < 64) as R3 by digit_range.
  split.
  - destruct (digit_ok_spec _ (digit_ok_tbl _ R0)) as (B0 & _).
    destruct (digit_ok_spec _ (digit_ok_tbl _ R1)) as (B1 & _).
    destruct (digit_ok_spec _ (digit_ok_tbl _ R2)) as (B2 & E2 & _).
    destruct (digit_ok_spec _ (digit_ok_tbl _ R3)) as (_ & E3 & N3 & _).
    unfold is_full_group. rewrite B0, B1, B2.
    apply Z.eqb_neq in E2, E3, N3. by rewrite E2, E3, N3.
  - unfold group_bytes. rewrite !nibble_digit by done.
    by rewrite byte0_spec, byte1_spec, byte2_spec.
Qed.

(** The loop on the base64 text of [rest] stores [rest] at [byte]. *)
Lemma b64_loop_decodes rest :
  Forall is_byte rest ->
  forall fuel buf p byte vlen stop,
    (byte <= p)%nat -> drop p buf = b64_text rest ->
    stop = (p + length (b64_text rest))%nat -> (length rest < fuel)%nat ->
    exists buf',
      b64_loop fuel buf p byte vlen stop =
        Some (buf', vlen + Z.of_nat (length rest)) /\
      length buf' = length buf /\
      take (byte + length rest) buf' = take byte buf ++ rest.
Proof.
  induction rest as [|a|a b|a b c l IH] using list_ind3;
    intros Hbytes fuel buf p byte vlen stop Hle Hd Hstop Hfuel.
  - exists buf. destruct fuel as [|fuel]; [simpl in Hfuel; lia|].
    cbn [b64_loop]. rewrite b64_text_nil in Hstop. cbn [length] in Hstop.
    replace (p <? stop)%nat with false by (symmetry; apply Nat.ltb_ge; lia).
    rewrite Z.add_0_r, Nat.add_0_r, app_nil_r. done.
  - apply Forall_cons in Hbytes as [Ha _].
    rewrite b64_text_one in Hd, Hstop by done. cbn [length] in Hstop, Hfuel.
    destruct fuel as [|fuel]; [lia|].
    assert (is_byte 0) as Hz by (unfold is_byte; lia).
    assert (0 <= a / 4 < 64) as R0 by digit_range.
    assert (0 <= a mod 4 * 16 + 0 / 16 < 64) as R1 by digit_range.
    destruct (digit_ok_spec _ (digit_ok_tbl _ R0)) as (B0 & _).
    destruct (digit_ok_spec _ (digit_ok_tbl _ R1)) as (B1 & _).
    destruct (b64_loop_break1 fuel buf p byte vlen stop _ _ _ Hle ltac:(lia)
                Hd B0 B1) as (buf' & Hrun & Hl & Ht).
    exists buf'. rewrite Hrun. split; [done|]. split; [done|].
    cbn [length]. rewrite Ht, !nibble_digit by done. by rewrite byte0_spec.
  - apply Forall_cons in Hbytes as [Ha Hbytes].
    apply Forall_cons in Hbytes as [Hb _].
    rewrite b64_text_two in Hd, Hstop by done. cbn [length] in Hstop, Hfuel.
    destruct fuel as [|fuel]; [lia|].
    assert (is_byte 0) as Hz by (unfold is_byte; lia).
    assert (0 <= a / 4 < 64) as R0 by digit_range.
    assert (0 <= a mod 4 * 16 + b / 16 < 64) as R1 by digit_range.
    assert (0 <= b mod 16 * 4 + 0 / 64 < 64) as R2 by digit_range.
    destruct (digit_ok_spec _ (digit_ok_tbl _ R0)) as (B0 & _).
    destruct (digit_ok_spec _ (digit_ok_tbl _ R1)) as (B1 & _).
    destruct (digit_ok_spec _ (digit_ok_tbl _ R2)) as (B2 & E2 & _).
    destruct (b64_loop_break2 fuel buf p byte vlen stop _ _ _ _ Hle ltac:(lia)
                Hd B0 B1 B2 E2) as (buf' & Hrun & Hl & Ht).
    exists buf'. rewrite Hrun. split; [done|]. split; [done|].
    cbn [length]. rewrite Ht, !nibble_digit by done.
    by rewrite byte0_spec, (byte1_spec a b 0).
  - apply Forall_cons in Hbytes as [Ha Hbytes].
    apply Forall_cons in Hbytes as [Hb Hbytes].
    apply Forall_cons in Hbytes as [Hc Hbytes].
    rewrite b64_text_group in Hd, Hstop.
    destruct (digits4_full_group a b c Ha Hb Hc)
      as (d0 & d1 & d2 & d3 & Hdig & Hfull & Hgb).
    rewrite Hdig in Hd, Hstop. rewrite length_app in Hstop.
    cbn [length] in Hstop, Hfuel.
    destruct fuel as [|fuel]; [lia|].
    destruct (b64_loop_full fuel buf p byte vlen stop d0 d1 d2 d3 (b64_text l)
                Hle ltac:(lia) Hd Hfull) as (buf1 & Hrun & Hl1 & Hd1 & Ht1).
    destruct (IH Hbytes fuel buf1 (p + 4)%nat (byte + 3)%nat (vlen + 3) stop
                ltac:(lia) Hd1 ltac:(lia) ltac:(lia))
      as (buf2 & Hrun2 & Hl2 & Ht2).
    exists buf2. rewrite Hrun, Hrun2.
    replace (vlen + Z.of_nat (length (a :: b :: c :: l)))
      with (vlen + 3 + Z.of_nat (length l)) by (cbn [length]; lia).
    split; [done|]. split; [congruence|].
    replace (byte + length (a :: b :: c :: l))%nat
      with (byte + 3 + length l)%nat by (cbn [length]; lia).
    rewrite Ht2, Ht1, Hgb, <- app_assoc. done.
Qed.

Lemma b64_text_chars val :
  Forall (fun c => c ∈ nib2b64 \/ c = EQUALS) (b64_text val).
Proof.
  unfold b64_text. apply Forall_app_2.
  - apply Forall_take. eapply Forall_impl; [apply b64_raw_alphabet|]. auto.
  - apply Forall_replicate. auto.
Qed.

Lemma b64_text_no_nul val : NUL ∉ b64_text val.
Proof.
  intros Hin. pose proof (b64_text_chars val) as H.
  rewrite Forall_forall in H. destruct (H _ Hin) as [Hc|Hc]; [|done].
  by apply (alphabet_forall (fun c => negb (c =? NUL))) in Hc.
Qed.

(** The [if(b64)] block gives back the value and its length. *)
Lemma b64_decode_text val :
  Forall is_byte val ->
  b64_decode (b64_text val) = Some (val, Z.of_nat (length val)).
Proof.
  intros Hbytes. unfold b64_decode.
  rewrite c_str_id by apply b64_text_no_nul.
  destruct (b64_loop_decodes val Hbytes (S (length (b64_text val)))
              (b64_text val) 0 0 0 (length (b64_text val)))
    as (buf' & Hrun & Hl & Ht); [lia|done|lia| |].
  { rewrite b64_text_length.
    pose proof (Nat.div_mod_eq (length val + 2) 3).
    pose proof (Nat.mod_upper_bound (length val + 2) 3 ltac:(lia)). lia. }
  rewrite Hrun. f_equal. f_equal.
  rewrite Z.add_0_l, Nat2Z.id. simpl in Ht. done.
Qed.

(** ** Folding, joining and unfolding *)

Lemma fold_stream_snoc len cs x :
  fold_stream len (cs ++ [x]) =
    fold_stream len cs ++
    (if fold_len len (length cs) >? LDIF_LINE_WIDTH then [NEWLINE; SPACE] else [])
    ++ [x].
Proof.
  rewrite fold_stream_app. simpl.
  by destruct (fold_len len (length cs) >? LDIF_LINE_WIDTH).
Qed.

(** Storing the pad characters over the last bytes of the output is
    storing them over the last characters of the text, unless a fold
    stands between the last two characters and both are replaced. *)
Lemma fold_stream_pad len raw pad :
  (pad <= length raw)%nat -> (pad <= 2)%nat ->
  (pad = 2%nat -> (fold_len len (length raw - 1) >? LDIF_LINE_WIDTH) = false) ->
  take (length (fold_stream len raw) - pad) (fold_stream len raw)
    ++ replicate pad EQUALS =
  fold_stream len (take (length raw - pad) raw ++ replicate pad EQUALS).
Proof.
  intros Hlen Hpad Hclash.
  destruct pad as [|[|[|pad]]]; [| | |lia].
  - rewrite !Nat.sub_0_r, !firstn_all. cbn [replicate]. by rewrite !app_nil_r.
  - destruct raw as [|x raw _] using rev_ind; [simpl in Hlen; lia|].
    rewrite length_app. cbn [length].
    replace (length raw + 1 - 1)%nat with (length raw) by lia.
    rewrite take_app_length. cbn [replicate].
    rewrite !fold_stream_snoc, !app_assoc, length_app. cbn [length].
    replace (length (fold_stream len raw ++
               (if fold_len len (length raw) >? LDIF_LINE_WIDTH
                then [NEWLINE; SPACE] else [])) + 1 - 1)%nat
      with (length (fold_stream len raw ++
               (if fold_len len (length raw) >? LDIF_LINE_WIDTH
                then [NEWLINE; SPACE] else []))) by lia.
    by rewrite take_app_length.
  - specialize (Hclash eq_refl).
    destruct raw as [|y raw _] using rev_ind; [simpl in Hlen; lia|].
    destruct raw as [|x raw _] using rev_ind;
      [rewrite length_app in Hlen; simpl in Hlen; lia|].
    rewrite !length_app in *. cbn [length] in *.
    replace (length raw + 1 + 1 - 1)%nat with (length raw + 1)%nat in Hclash by lia.
    replace (length raw + 1 + 1 - 2)%nat with (length raw) by lia.
    rewrite <- (app_assoc raw [x] [y]), take_app_length. cbn [replicate].
    change [EQUALS; EQUALS] with ([EQUALS] ++ [EQUALS]).
    rewrite (app_assoc raw [x] [y]), (app_assoc raw [EQUALS] [EQUALS]).
    rewrite (fold_stream_snoc len (raw ++ [x])), (fold_stream_snoc len (raw ++ [EQUALS])).
    rewrite !length_app. cbn [length]. rewrite Hclash. cbn [app].
    rewrite !fold_stream_snoc.
    set (pre := fold_stream len raw ++
                (if fold_len len (length raw) >? LDIF_LINE_WIDTH
                 then [NEWLINE; SPACE] else [])).
    rewrite !(app_assoc (fold_stream len raw)). fold pre.
    rewrite <- !app_assoc. rewrite length_app. cbn [app length].
    replace (length pre + 1 + (0 + 1) - 2)%nat with (length pre) by lia.
    by rewrite take_app_length.
Qed.

(** The fragment on the base64 path when the padding meets no fold. *)
Lemma put_type_and_value_b64_text t val :
  uses_base64 t val = true -> pad_on_fold t val = false ->
  put_type_and_value t val =
    c_str t ++ [COLON; COLON; SPACE] ++
    fold_stream (Z.of_nat (length (c_str t)) + 3) (b64_text val) ++ [NEWLINE].
Proof.
  intros Hb Hclash. rewrite (put_type_and_value_b64 t val Hb). cbv zeta.
  set (len := Z.of_nat (length (c_str t)) + 3) in *.
  pose proof (pad_le_raw val) as Hpad.
  assert (pad_count (length val) <= 2)%nat as Hp2.
  { unfold pad_count. by destruct (length val mod 3)%nat as [|[|?]]; lia. }
  pose proof (fold_stream_pad len (b64_raw val) (pad_count (length val)) Hpad Hp2)
    as H.
  unfold b64_text. cbv zeta. rewrite <- H.
  - by rewrite <- !app_assoc.
  - intros Hp. unfold pad_on_fold in Hclash. fold len in Hclash.
    rewrite Hb, Hp in Hclash. done.
Qed.

Lemma getline_scan_app pre s :
  NEWLINE ∉ pre ->
  getline_scan (pre ++ s) =
    (pre ++ (getline_scan s).1, (getline_scan s).2).
Proof.
  induction pre as [|c pre IH]; intros Hn.
  - simpl. by destruct (getline_scan s).
  - apply not_elem_of_cons in Hn as [Hc Hpre].
    cbn [app getline_scan]. destruct (Z.eqb_spec c NEWLINE); [done|].
    rewrite IH by done. done.
Qed.

Lemma getline_scan_fold len cs :
  NEWLINE ∉ cs ->
  getline_scan (fold_stream len cs ++ [NEWLINE]) = (mark_stream len cs, Some []).
Proof.
  revert len. induction cs as [|c cs IH]; intros len Hn; [done|].
  apply not_elem_of_cons in Hn as [Hc Hcs].
  cbn [fold_stream mark_stream].
  destruct (len >? LDIF_LINE_WIDTH).
  - change (getline_scan ((NEWLINE :: SPACE :: c :: fold_stream 2 cs) ++ [NEWLINE]))
      with (let '(l, r) := getline_scan (c :: fold_stream 2 cs ++ [NEWLINE]) in
            (CONTINUED_LINE_MARKER :: CONTINUED_LINE_MARKER :: l, r)).
    cbn [getline_scan]. destruct (Z.eqb_spec c NEWLINE); [done|].
    rewrite IH by done. done.
  - cbn [app getline_scan]. destruct (Z.eqb_spec c NEWLINE); [done|].
    rewrite IH by done. done.
Qed.

Lemma strip_markers_mark_stream len cs :
  CONTINUED_LINE_MARKER ∉ cs -> strip_markers (mark_stream len cs) = cs.
Proof.
  revert len. induction cs as [|c cs IH]; intros len Hn; [done|].
  apply not_elem_of_cons in Hn as [Hc Hcs].
  cbn [mark_stream]. destruct (len >? LDIF_LINE_WIDTH); cbn [strip_markers].
  - rewrite Z.eqb_refl. destruct (Z.eqb_spec c CONTINUED_LINE_MARKER); [done|].
    by rewrite IH.
  - destruct (Z.eqb_spec c CONTINUED_LINE_MARKER); [done|]. by rewrite IH.
Qed.

Lemma mark_stream_Forall (P : Z -> Prop) len cs :
  P CONTINUED_LINE_MARKER -> Forall P cs -> Forall P (mark_stream len cs).
Proof.
  intros Hm H. revert len.
  induction H as [|c cs Hc _ IH]; intros len; simpl; [constructor|].
  destruct (len >? LDIF_LINE_WIDTH); repeat constructor; auto.
Qed.

(** The joined payload starts with a marker or with its first
    character. *)
Lemma mark_stream_head len c cs :
  exists h tl, mark_stream len (c :: cs) = h :: tl /\
               (h = CONTINUED_LINE_MARKER \/ h = c).
Proof.
  cbn [mark_stream]. destruct (len >? LDIF_LINE_WIDTH); eauto.
Qed.

(** ** C1: the round trip *)

Lemma not_elem_of_Forall (x : Z) l : x ∉ l <-> Forall (fun y => y <> x) l.
Proof.
  rewrite Forall_forall. split.
  - intros H y Hy ->. done.
  - intros H Hin. by apply (H x Hin).
Qed.

Lemma rtrim_id l :
  match last l with Some x => ISSPACE x = false | None => True end ->
  rtrim l = l.
Proof.
  induction l as [|c l IH]; [done|].
  destruct l as [|c' l'].
  - simpl. by intros ->.
  - intros H. change (last (c :: c' :: l')) with (last (c' :: l')) in H.
    cbn [rtrim]. cbn [rtrim] in IH. rewrite (IH H). done.
Qed.

Lemma valid_type_spec t :
  valid_type t = true ->
  exists c l, t = c :: l /\ ISSPACE c = false /\ c <> NEWLINE /\
    (NUL ∉ t) /\ (COLON ∉ t) /\ (NEWLINE ∉ t) /\ trim_type t = t.
Proof.
  unfold valid_type. rewrite !andb_true_iff. intros [[Hhd Hlast] Hall].
  destruct t as [|c l]; [done|]. exists c, l.
  apply negb_true_iff in Hhd.
  assert (forall x, x ∈ c :: l -> 0 < x /\ x <> COLON /\ x <> NEWLINE) as Hx.
  { intros x Hin%list_elem_of_In. rewrite forallb_forall in Hall.
    specialize (Hall x Hin).
    rewrite !andb_true_iff, !negb_true_iff, !Z.eqb_neq in Hall. lia. }
  repeat split; try done.
  - apply (Hx c). left.
  - intros Hin. apply Hx in Hin. unfold NUL in Hin. lia.
  - intros Hin. apply Hx in Hin. tauto.
  - intros Hin. apply Hx in Hin. tauto.
  - cbn [trim_type]. f_equal. apply rtrim_id.
    destruct l as [|c' l']; [done|].
    change (last (c :: c' :: l')) with (last (c' :: l')) in Hlast.
    destruct (last (c' :: l')); [|done]. by apply negb_true_iff.
Qed.

(** [str_parse_line] on a joined line "type: payload" or
    "type:: payload". *)
Lemma str_parse_line_typed t h tl :
  valid_type t = true -> NUL ∉ h :: tl -> ISSPACE h = false ->
  str_parse_line (t ++ COLON :: SPACE :: h :: tl) =
    ParseOk t (strip_markers (h :: tl))
      (Z.of_nat (length (strip_markers (h :: tl)))) /\
  str_parse_line (t ++ COLON :: COLON :: SPACE :: h :: tl) =
    match b64_decode (strip_markers (h :: tl)) with
    | Some (value, vlen) => ParseOk t value vlen
    | None => ParseErr InvalidBase64Char
    end.
Proof.
  intros (c & l & -> & Hc & _ & Hnul & Hcol & _ & Htrim)%valid_type_spec Hn Hh.
  assert (forall s, skip_space ((c :: l) ++ s) = (c :: l) ++ s) as Hskip.
  { intros s. cbn [app skip_space]. by rewrite Hc. }
  assert (skip_space (SPACE :: h :: tl) = h :: tl) as Hsp.
  { cbn [skip_space]. change (ISSPACE SPACE) with true. cbv iota. by rewrite Hh. }
  unfold str_parse_line. split.
  - rewrite c_str_id.
    2:{ apply not_elem_of_app. split; [done|].
        repeat (apply not_elem_of_cons; split; [done|]). exact Hn. }
    rewrite Hskip, find_colon_first by done. rewrite Htrim.
    change (SPACE =? COLON) with false. cbv iota. rewrite Hsp. done.
  - rewrite c_str_id.
    2:{ apply not_elem_of_app. split; [done|].
        repeat (apply not_elem_of_cons; split; [done|]). exact Hn. }
    rewrite Hskip, find_colon_first by done. rewrite Htrim.
    rewrite Z.eqb_refl. rewrite Hsp. done.
Qed.

(** The line joiner on a folded fragment. *)
Lemma str_getline_fragment t sep len cs :
  valid_type t = true -> NUL ∉ sep -> NEWLINE ∉ sep ->
  NUL ∉ cs -> NEWLINE ∉ cs ->
  str_getline (Some (t ++ sep ++ fold_stream len cs ++ [NEWLINE])) =
    Some (t ++ sep ++ mark_stream len cs, Some []).
Proof.
  intros (c & l & -> & Hc & Hcn & Hnul & Hcol & Hnl & _)%valid_type_spec
    Hsep0 Hsepn Hcs0 Hcsn.
  unfold str_getline. rewrite c_str_id.
  2:{ rewrite !not_elem_of_app. repeat split; try done.
      - apply not_elem_of_Forall.
        apply fold_stream_Forall; [done|done|]. by apply not_elem_of_Forall.
      - by rewrite not_elem_of_cons; split; [|apply not_elem_of_nil]. }
  cbn [app]. destruct (Z.eqb_spec c NEWLINE); [done|].
  change (c :: l ++ sep ++ fold_stream len cs ++ [NEWLINE])
    with ((c :: l) ++ sep ++ fold_stream len cs ++ [NEWLINE]).
  rewrite (app_assoc (c :: l) sep).
  rewrite getline_scan_app by (rewrite not_elem_of_app; done).
  rewrite getline_scan_fold by done. cbn [fst snd].
  by rewrite <- app_assoc.
Qed.

Lemma printable_spec b : printable b = true -> 32 <= b <= 126.
Proof. unfold printable, isprint. lia. Qed.

(** The round trip on the plain path. *)
Lemma round_trip_plain t val :
  valid_type t = true -> val <> [] -> uses_base64 t val = false ->
  decode_fragment (put_type_and_value t val) =
    Some (ParseOk t val (Z.of_nat (length val))).
Proof.
  intros Ht Hne Hb.
  rewrite (put_type_and_value_plain t val Hb).
  rewrite uses_base64_spec in Hb. apply orb_false_elim in Hb as [Hs Hp].
  apply negb_false_iff in Hp.
  assert (forall x, x ∈ val -> 32 <= x <= 126) as Hx.
  { intros x Hin%list_elem_of_In. rewrite forallb_forall in Hp.
    by apply printable_spec, Hp. }
  pose proof (valid_type_spec t Ht) as (c & l & Heq & _ & _ & Hnul & _).
  rewrite (c_str_id t) by done.
  unfold decode_fragment.
  rewrite (str_getline_fragment t [COLON; SPACE]); try done.
  2,3: rewrite !not_elem_of_cons; repeat split; try done; apply not_elem_of_nil.
  2,3: intros Hin; apply Hx in Hin; unfold NUL, NEWLINE in Hin; lia.
  destruct val as [|b rest]; [done|].
  destruct (mark_stream_head (Z.of_nat (length t) + 1) b rest)
    as (h & tl & Hm & Hh). rewrite Hm.
  assert (ISSPACE h = false) as Hsp.
  { destruct Hh as [-> | ->]; [done|].
    pose proof (Hx b ltac:(left)) as Hb.
    unfold starts_special, rd in Hs. simpl in Hs.
    unfold char_of in Hs. destruct (Z.ltb_spec b 128); [|lia].
    rewrite (proj2 (isascii_spec b)) in Hs by lia.
    by apply orb_false_elim in Hs as [? _]. }
  assert (NUL ∉ h :: tl) as Hn0.
  { rewrite <- Hm. apply not_elem_of_Forall.
    apply mark_stream_Forall; [done|]. apply Forall_forall.
    intros x Hin%Hx. unfold NUL. lia. }
  destruct (str_parse_line_typed t h tl Ht Hn0 Hsp) as [Hparse _].
  cbn [app]. rewrite Hparse, <- Hm.
  rewrite strip_markers_mark_stream; [done|].
  intros Hin%Hx. unfold CONTINUED_LINE_MARKER in Hin. lia.
Qed.

Lemma b64_text_digit_ok val c :
  c ∈ b64_text val ->
  c <> NUL /\ c <> NEWLINE /\ c <> CONTINUED_LINE_MARKER /\ ISSPACE c = false.
Proof.
  intros Hin. pose proof (b64_text_chars val) as H.
  rewrite Forall_forall in H. destruct (H _ Hin) as [Hc | ->]; [|done].
  apply (alphabet_forall digit_ok) in Hc; [|done].
  apply digit_ok_spec in Hc. tauto.
Qed.

(** The round trip on the base64 path. *)
Lemma round_trip_b64 t val :
  valid_type t = true -> Forall is_byte val -> val <> [] ->
  uses_base64 t val = true -> pad_on_fold t val = false ->
  decode_fragment (put_type_and_value t val) =
    Some (ParseOk t val (Z.of_nat (length val))).
Proof.
  intros Ht Hbytes Hne Hb Hclash.
  rewrite (put_type_and_value_b64_text t val Hb Hclash).
  pose proof (valid_type_spec t Ht) as (c & l & Heq & _ & _ & Hnul & _).
  rewrite (c_str_id t) by done.
  unfold decode_fragment.
  rewrite (str_getline_fragment t [COLON; COLON; SPACE]); try done.
  2,3: rewrite !not_elem_of_cons; repeat split; try done; apply not_elem_of_nil.
  2,3: intros Hin%b64_text_digit_ok; tauto.
  destruct (b64_text val) as [|d ds] eqn:Htext.
  { pose proof (b64_text_length val) as Hl. rewrite Htext in Hl.
    destruct val as [|b rest]; [done|]. cbn [length] in Hl.
    pose proof (Nat.div_mod_eq (S (length rest) + 2) 3).
    pose proof (Nat.mod_upper_bound (S (length rest) + 2) 3 ltac:(lia)). lia. }
  destruct (mark_stream_head (Z.of_nat (length t) + 3) d ds)
    as (h & tl & Hm & Hh). rewrite Hm.
  assert (forall x, x ∈ d :: ds ->
            x <> NUL /\ x <> NEWLINE /\ x <> CONTINUED_LINE_MARKER /\
            ISSPACE x = false) as Hx.
  { intros x Hin. rewrite <- Htext in Hin. by apply b64_text_digit_ok in Hin. }
  assert (ISSPACE h = false) as Hsp.
  { destruct Hh as [-> | ->]; [done|]. apply Hx. left. }
  assert (NUL ∉ h :: tl) as Hn0.
  { rewrite <- Hm. apply not_elem_of_Forall.
    apply mark_stream_Forall; [done|]. apply Forall_forall.
    intros x Hin%Hx. tauto. }
  destruct (str_parse_line_typed t h tl Ht Hn0 Hsp) as [_ Hparse].
  cbn [app]. rewrite Hparse, <- Hm.
  rewrite strip_markers_mark_stream by (intros Hin%Hx; tauto).
  rewrite <- Htext, b64_decode_text by done. done.
Qed.

(** C1, as amended.  For a valid attribute name and a value of at least
    one byte, decoding the encoded fragment gives back the name, the
    value and its length, provided the padding does not meet a fold. *)
Theorem round_trip t val :
  valid_type t = true -> Forall is_byte val -> val <> [] ->
  pad_on_fold t val = false ->
  decode_fragment (put_type_and_value t val) =
    Some (ParseOk t val (Z.of_nat (length val))).
Proof.
  intros Ht Hbytes Hne Hclash.
  destruct (uses_base64 t val) eqn:Hb.
  - by apply round_trip_b64.
  - by apply round_trip_plain.
Qed.

Lemma round_trip_witness :
  decode_fragment (put_type_and_value (bytes_of "jpegPhoto") [255; 0; 10; 1]) =
    Some (ParseOk (bytes_of "jpegPhoto") [255; 0; 10; 1]
            (Z.of_nat (length [255; 0; 10; 1]))).
Proof.
  apply (round_trip (bytes_of "jpegPhoto") [255; 0; 10; 1]).
  - reflexivity.
  - repeat constructor; unfold is_byte; lia.
  - discriminate.
  - reflexivity.
Defined.

(** C1, as stated, fails on the empty value: the encoder writes "cn: "
    and a newline, and [str_parse_line] finds no value on that line. *)
Lemma round_trip_fails_on_empty_value :
  ~ (forall t val,
       valid_type t = true -> Forall is_byte val ->
       decode_fragment (put_type_and_value t val) =
         Some (ParseOk t val (Z.of_nat (length val)))).
Proof.
  intros H. specialize (H (bytes_of "cn") [] eq_refl (Forall_nil_2 _)).
  vm_compute in H. discriminate H.
Qed.

(** Where the padding meets a fold the fragment is cut at the first
    newline, and the value that comes back has 54 bytes for 52. *)
Lemma round_trip_on_pad_on_fold :
  pad_on_fold (bytes_of "uid") (replicate 52 255) = true /\
  decode_fragment (put_type_and_value (bytes_of "uid") (replicate 52 255)) =
    Some (ParseOk (bytes_of "uid") (replicate 51 255 ++ [255; 0; 255]) 54).
Proof. vm_compute. auto. Qed.

(** ** The fuel of the base64 loop and the column of a fold *)

(** The loop never runs out of the fuel [b64_decode] gives it: more fuel
    than bytes between [p] and [stop] is as good as any. *)
Lemma b64_loop_fuel fuel fuel' buf p byte vlen stop :
  (stop - p < fuel)%nat -> (stop - p < fuel')%nat ->
  b64_loop fuel buf p byte vlen stop = b64_loop fuel' buf p byte vlen stop.
Proof.
  revert fuel' buf p byte vlen.
  induction fuel as [|fuel IH]; intros fuel' buf p byte vlen H1 H2; [lia|].
  destruct fuel' as [|fuel']; [lia|]. cbn [b64_loop].
  destruct (Nat.ltb_spec p stop); [|done].
  destruct (b64_group buf p byte); try done.
  apply IH; lia.
Qed.

(** [len] in closed form: it runs up to 77, and from 2 to 77 after every
    fold. *)
Lemma fold_len_closed len n :
  1 <= len <= 77 ->
  fold_len len n =
    if len + Z.of_nat n <=? 77 then len + Z.of_nat n
    else 2 + (len + Z.of_nat n - 78) mod 76.
Proof.
  revert len. induction n as [|n IH]; intros len Hlen.
  - cbn [fold_len]. destruct (Z.leb_spec (len + Z.of_nat 0) 77); lia.
  - cbn [fold_len]. unfold LDIF_LINE_WIDTH.
    destruct (Z.gtb_spec len 76).
    + rewrite IH by lia.
      destruct (Z.leb_spec (1 + 1 + Z.of_nat n) 77),
               (Z.leb_spec (len + Z.of_nat (S n)) 77);
        Z.div_mod_to_equations; lia.
    + rewrite IH by lia.
      destruct (Z.leb_spec (len + 1 + Z.of_nat n) 77),
               (Z.leb_spec (len + Z.of_nat (S n)) 77);
        try lia.
      f_equal. f_equal. lia.
Qed.

(** For a type of at most 74 characters the padding meets a fold exactly
    when the value goes out in base64, its length is 1 modulo 3, and the
    type and the base64 text together have 75 characters, or 76 more, or
    152 more, and so on. *)
Lemma pad_on_fold_closed t val :
  (length (c_str t) <= 74)%nat ->
  pad_on_fold t val = true <->
  uses_base64 t val = true /\ (length val mod 3 = 1)%nat /\
  exists k : nat,
    (length (c_str t) + (4 * (length val / 3) + 4) = 75 + 76 * k)%nat.
Proof.
  intros Ht. unfold pad_on_fold.
  rewrite !andb_true_iff, Nat.eqb_eq.
  rewrite fold_len_closed by lia. rewrite b64_raw_length.
  pose proof (Nat.div_mod_eq (length val) 3) as Hd.
  pose proof (Nat.mod_upper_bound (length val) 3 ltac:(lia)) as Hm.
  assert (pad_count (length val) = 2%nat <-> (length val mod 3 = 1)%nat) as Hp.
  { unfold pad_count. destruct (length val mod 3)%nat as [|[|?]]; lia. }
  rewrite Hp. unfold LDIF_LINE_WIDTH. rewrite Z.gtb_ltb, Z.ltb_lt.
  split.
  - intros [[Hb H1] Hgt]. split; [done|]. split; [done|].
    assert ((length val + 2) / 3 = length val / 3 + 1)%nat as Hq.
    { rewrite Hd at 1. rewrite H1.
      replace (3 * (length val / 3) + 1 + 2)%nat
        with (0 + (length val / 3 + 1) * 3)%nat by lia.
      rewrite Nat.div_add by lia. done. }
    rewrite Hq in Hgt.
    set (q := (length val / 3)%nat) in *.
    set (tl := length (c_str t)) in *.
    destruct (Z.leb_spec (Z.of_nat tl + 3 + Z.of_nat (4 * (q + 1) - 1)) 77) as [Hle|Hle].
    + exists 0%nat. lia.
    + exists (Z.to_nat ((Z.of_nat tl + 3 + Z.of_nat (4 * (q + 1) - 1) - 78) / 76 + 1)).
      revert Hgt. Z.div_mod_to_equations. lia.
  - intros (Hb & H1 & k & Hk). split; [done|].
    assert ((length val + 2) / 3 = length val / 3 + 1)%nat as Hq.
    { rewrite Hd at 1. rewrite H1.
      replace (3 * (length val / 3) + 1 + 2)%nat
        with (0 + (length val / 3 + 1) * 3)%nat by lia.
      rewrite Nat.div_add by lia. done. }
    rewrite Hq.
    set (q := (length val / 3)%nat) in *.
    set (tl := length (c_str t)) in *.
    destruct (Z.leb_spec (Z.of_nat tl + 3 + Z.of_nat (4 * (q + 1) - 1)) 77) as [Hle|Hle].
    + lia.
    + Z.div_mod_to_equations. lia.
Qed.

(** * Further properties of the codec *)

(** ** The value and the type returned by [str_parse_line] *)

(** During the loop [*vlen] is the offset of [byte], and [byte] stays
    inside the buffer. *)
Lemma b64_loop_vlen fuel buf p byte stop r n :
  (byte <= p)%nat -> (byte <= length buf)%nat ->
  b64_loop fuel buf p byte (Z.of_nat byte) stop = Some (r, n) ->
  0 <= n <= Z.of_nat (length r).
Proof.
  revert buf p byte. induction fuel as [|fuel IH]; intros buf p byte Hle Hlen Hrun.
  - cbn [b64_loop] in Hrun. injection Hrun as <- <-. lia.
  - cbn [b64_loop] in Hrun. destruct (p <? stop)%nat.
    2:{ injection Hrun as <- <-. lia. }
    rewrite b64_group_spec in Hrun by done. cbv zeta in Hrun.
    destruct (bad_b64_char (rd buf p)) eqn:E0; [done|].
    destruct (bad_b64_char (rd buf (p + 1))) eqn:E1; [done|].
    destruct (bad_b64_char (rd buf (p + 2))) eqn:E2; [done|].
    cbn [orb] in Hrun.
    apply bad_b64_char_nul, rd_in_range in E0, E1, E2.
    destruct (rd buf (p + 2) =? EQUALS).
    { injection Hrun as <- <-. rewrite !length_insert. lia. }
    destruct (rd buf (p + 3) =? EQUALS).
    { injection Hrun as <- <-. rewrite !length_insert. lia. }
    replace (Z.of_nat byte + 3) with (Z.of_nat (byte + 3)) in Hrun by lia.
    apply IH in Hrun; [done|lia|rewrite !length_insert; lia].
Qed.

(** X1.  Whenever [str_parse_line] succeeds, on the plain and on the
    base64 path, the value it returns has exactly [*vlen] bytes. *)
Theorem parse_vlen_is_length line type value vlen :
  str_parse_line line = ParseOk type value vlen ->
  Z.of_nat (length value) = vlen.
Proof.
  unfold str_parse_line.
  destruct (find_colon (skip_space (c_str line))) as [pre [[|c s]|]]; try done.
  set (bs := match s with
             | [] => (false, s)
             | c0 :: s' => if c0 =? COLON then (true, s') else (false, s)
             end).
  destruct bs as [b64 s1].
  destruct (skip_space s1) as [|h tl]; [done|].
  destruct b64.
  - unfold b64_decode.
    destruct (b64_loop _ _ 0 0 0 _) as [[buf n]|] eqn:Hrun; [|done].
    intros H. injection H as _ <- <-.
    apply (b64_loop_vlen _ _ 0 0) in Hrun; [|lia|lia].
    rewrite length_take. lia.
  - intros H. by injection H as _ <- <-.
Qed.

Lemma parse_vlen_is_length_witness :
  Z.of_nat (length (bytes_of "John Doe")) = 8.
Proof.
  apply (parse_vlen_is_length (bytes_of "cn:: Sm9obiBEb2U=") (bytes_of "cn")).
  vm_compute. reflexivity.
Defined.

Lemma c_str_nul_free l : NUL ∉ c_str l.
Proof.
  induction l as [|c l IH]; simpl; [apply not_elem_of_nil|].
  destruct (Z.eqb_spec c NUL); [apply not_elem_of_nil|].
  by apply not_elem_of_cons.
Qed.

Lemma skip_space_head l :
  match skip_space l with
  | c :: _ => ISSPACE c = false
  | [] => True
  end.
Proof.
  induction l as [|c l IH]; simpl; [done|].
  by destruct (ISSPACE c) eqn:E.
Qed.

Lemma find_colon_prefix l :
  (COLON ∉ (find_colon l).1) /\
  exists rest, l = (find_colon l).1 ++ rest.
Proof.
  induction l as [|c l [IH1 [rest IH2]]]; simpl.
  - split; [apply not_elem_of_nil|by exists []].
  - destruct (Z.eqb_spec c COLON) as [->|Hc]; simpl.
    + split; [apply not_elem_of_nil|by eexists].
    + destruct (find_colon l) as [pre r]. simpl in *. split.
      * by apply not_elem_of_cons.
      * exists rest. by rewrite <- IH2.
Qed.

Lemma rtrim_elem x l : x ∈ rtrim l -> x ∈ l.
Proof.
  induction l as [|c l IH]; simpl; [done|].
  destruct (rtrim l) as [|r rs].
  - destruct (ISSPACE c); [by intros ?%elem_of_nil|].
    intros ->%list_elem_of_singleton. left.
  - intros [->|H]%elem_of_cons; [left|right; by apply IH].
Qed.

Lemma rtrim_last l :
  match last (rtrim l) with
  | Some x => ISSPACE x = false
  | None => True
  end.
Proof.
  induction l as [|c l IH]; simpl; [done|].
  destruct (rtrim l) as [|r rs].
  - destruct (ISSPACE c) eqn:E; simpl; done.
  - change (last (c :: r :: rs)) with (last (r :: rs)). done.
Qed.

(** X2.  The type returned by [str_parse_line] holds neither a colon nor
    a NUL, and has no white space at its start or at its end. *)
Theorem parse_type_shape line type value vlen :
  str_parse_line line = ParseOk type value vlen ->
  (COLON ∉ type) /\ (NUL ∉ type) /\
  (forall c, head type = Some c -> ISSPACE c = false) /\
  (forall c, last type = Some c -> ISSPACE c = false).
Proof.
  unfold str_parse_line.
  pose proof (skip_space_head (c_str line)) as Hhead.
  pose proof (find_colon_prefix (skip_space (c_str line))) as [Hcol [rest Hpre]].
  assert (forall x, x ∈ skip_space (c_str line) -> x <> NUL) as Hnul.
  { intros x Hin%skip_space_elem ->. by apply (c_str_nul_free line). }
  destruct (find_colon (skip_space (c_str line))) as [pre [[|c s]|]]; try done.
  cbn [fst] in *.
  set (bs := match s with
             | [] => (false, s)
             | c0 :: s' => if c0 =? COLON then (true, s') else (false, s)
             end).
  destruct bs as [b64 s1].
  destruct (skip_space s1) as [|h tl]; [done|].
  assert (type = trim_type pre -> (COLON ∉ type) /\ (NUL ∉ type) /\
          (forall c, head type = Some c -> ISSPACE c = false) /\
          (forall c, last type = Some c -> ISSPACE c = false)) as Hgoal.
  { intros ->. destruct pre as [|p0 pl]; cbn [trim_type].
    - repeat split; try apply not_elem_of_nil; done.
    - rewrite Hpre in Hhead, Hnul. cbn [app] in Hhead.
      assert (forall x, x ∈ p0 :: rtrim pl -> x ∈ p0 :: pl) as Hsub.
      { intros x. rewrite !elem_of_cons. intros [->|H]; [by left|].
        right. by apply rtrim_elem. }
      repeat split.
      + intros Hin%Hsub. done.
      + intros Hin%Hsub. apply (Hnul NUL); [|done].
        apply elem_of_app. by left.
      + intros c0 H. by injection H as <-.
      + intros c0. pose proof (rtrim_last pl) as Hl.
        destruct (rtrim pl) as [|r rs].
        * intros H. by injection H as <-.
        * change (last (p0 :: r :: rs)) with (last (r :: rs)).
          intros H. by rewrite H in Hl. }
  destruct b64.
  - destruct (b64_decode _) as [[v n]|]; [|done].
    intros H. injection H as <- _ _. by apply Hgoal.
  - intros H. injection H as <- _ _. by apply Hgoal.
Qed.

Lemma parse_type_shape_witness :
  (COLON ∉ bytes_of "cn") /\ (NUL ∉ bytes_of "cn") /\
  (forall c, head (bytes_of "cn") = Some c -> ISSPACE c = false) /\
  (forall c, last (bytes_of "cn") = Some c -> ISSPACE c = false).
Proof.
  apply (parse_type_shape (bytes_of "  cn  : John Doe") (bytes_of "cn")
           (bytes_of "John Doe") 8).
  reflexivity.
Defined.

Lemma skip_space_app_ws ws l :
  Forall (fun c => isspace c = true) ws -> skip_space (ws ++ l) = skip_space l.
Proof.
  induction 1 as [|c ws Hc _ IH]; simpl; [done|].
  apply isspace_byte in Hc as [-> _]. done.
Qed.

Lemma rtrim_ws ws : Forall (fun c => isspace c = true) ws -> rtrim ws = [].
Proof.
  induction 1 as [|c ws Hc _ IH]; simpl; [done|].
  rewrite IH. apply isspace_byte in Hc as [-> _]. done.
Qed.

Lemma rtrim_app_ws l ws :
  Forall (fun c => isspace c = true) ws -> rtrim (l ++ ws) = rtrim l.
Proof.
  intros Hws. induction l as [|c l IH]; simpl.
  - by apply rtrim_ws.
  - by rewrite IH.
Qed.

Lemma ws_no_nul_colon ws :
  Forall (fun c => isspace c = true) ws -> (NUL ∉ ws) /\ (COLON ∉ ws).
Proof.
  intros Hws. rewrite Forall_forall in Hws.
  split; intros Hin%Hws%isspace_byte; unfold NUL, COLON in *; lia.
Qed.

(** X3.  On a line with a single colon the white space before the type,
    between the type and the colon, and between the colon and the value
    is dropped; the value is the rest of the line without the
    continued-line markers, its trailing white space included, and
    [*vlen] is its length. *)
Theorem parse_plain_line ws1 type ws2 ws3 h tl :
  Forall (fun c => isspace c = true) ws1 ->
  Forall (fun c => isspace c = true) ws2 ->
  Forall (fun c => isspace c = true) ws3 ->
  valid_type type = true ->
  NUL ∉ h :: tl -> ISSPACE h = false -> (ws3 = [] -> h <> COLON) ->
  str_parse_line (ws1 ++ type ++ ws2 ++ [COLON] ++ ws3 ++ h :: tl) =
    ParseOk type (strip_markers (h :: tl))
      (Z.of_nat (length (strip_markers (h :: tl)))) /\
  (CONTINUED_LINE_MARKER ∉ strip_markers (h :: tl)).
Proof.
  intros H1 H2 H3 Ht Hnul Hh Hcolon. split.
  - pose proof (valid_type_spec type Ht)
      as (c & l & -> & Hc & _ & Hn0 & Hcol & _ & Htrim).
    destruct (ws_no_nul_colon _ H1) as [N1 _].
    destruct (ws_no_nul_colon _ H2) as [N2 C2].
    destruct (ws_no_nul_colon _ H3) as [N3 C3].
    unfold str_parse_line.
    rewrite c_str_id.
    2:{ rewrite !not_elem_of_app. repeat split; try done.
        apply not_elem_of_cons. split; [done|apply not_elem_of_nil]. }
    rewrite skip_space_app_ws by done.
    replace (skip_space ((c :: l) ++ ws2 ++ [COLON] ++ ws3 ++ h :: tl))
      with (((c :: l) ++ ws2) ++ COLON :: ws3 ++ h :: tl).
    2:{ rewrite <- app_assoc. cbn [app skip_space]. by rewrite Hc. }
    rewrite find_colon_first by (rewrite not_elem_of_app; done).
    cbn [app trim_type]. rewrite rtrim_app_ws by done.
    cbn [trim_type] in Htrim. rewrite Htrim.
    assert (match ws3 ++ h :: tl with
            | [] => (false, ws3 ++ h :: tl)
            | c0 :: s' =>
                if c0 =? COLON then (true, s') else (false, ws3 ++ h :: tl)
            end = (false, ws3 ++ h :: tl)) as ->.
    { destruct ws3 as [|w ws3]; cbn [app].
      - destruct (Z.eqb_spec h COLON); [|done]. by destruct Hcolon.
      - apply Forall_cons in H3 as [Hw%isspace_byte _].
        destruct (Z.eqb_spec w COLON); [|done]. unfold COLON in *. lia. }
    rewrite skip_space_app_ws by done. cbn [skip_space]. rewrite Hh. done.
  - generalize (h :: tl). intros s. induction s as [|x s IH]; simpl.
    + apply not_elem_of_nil.
    + destruct (Z.eqb_spec x CONTINUED_LINE_MARKER); [done|].
      by apply not_elem_of_cons.
Qed.

Lemma parse_plain_line_witness :
  str_parse_line ([SPACE] ++ bytes_of "cn" ++ [SPACE; 9] ++ [COLON] ++ [SPACE]
                  ++ 74 :: bytes_of "ohn Doe ") =
    ParseOk (bytes_of "cn") (strip_markers (74 :: bytes_of "ohn Doe "))
      (Z.of_nat (length (strip_markers (74 :: bytes_of "ohn Doe ")))) /\
  (CONTINUED_LINE_MARKER ∉ strip_markers (74 :: bytes_of "ohn Doe ")).
Proof.
  apply (parse_plain_line [SPACE] (bytes_of "cn") [SPACE; 9] [SPACE] 74
           (bytes_of "ohn Doe ")).
  - repeat constructor.
  - repeat constructor.
  - repeat constructor.
  - reflexivity.
  - apply (bool_decide_unpack _). vm_compute. exact I.
  - reflexivity.
  - discriminate.
Defined.

(** ** The base64 block of the decoder *)

(** The rounds on full groups store, group by group, the bytes of each
    group: a character is never overwritten before it is read. *)
Lemma b64_loop_groups_bytes groups :
  forallb is_full_group groups = true ->
  forall fuel buf p byte vlen stop tail,
    (byte <= p)%nat -> (p + 4 * length groups <= stop)%nat ->
    drop p buf = concat groups ++ tail ->
    exists buf',
      b64_loop (length groups + fuel) buf p byte vlen stop =
        b64_loop fuel buf' (p + 4 * length groups) (byte + 3 * length groups)
          (vlen + 3 * Z.of_nat (length groups)) stop /\
      length buf' = length buf /\
      drop (p + 4 * length groups) buf' = tail /\
      take (byte + 3 * length groups) buf' =
        take byte buf ++ concat (map group_bytes_of groups).
Proof.
  induction groups as [|g groups IH]; intros Hall fuel buf p byte vlen stop tail
    Hle Hstop Hd.
  - exists buf. simpl. rewrite !Nat.add_0_r, Z.add_0_r, app_nil_r. done.
  - simpl in Hall. apply andb_true_iff in Hall as [Hg Hgs].
    destruct (is_full_group_inv g Hg) as (c0 & c1 & c2 & c3 & ->).
    cbn [length] in *. simpl in Hd.
    destruct (b64_loop_full (length groups + fuel) buf p byte vlen stop
                c0 c1 c2 c3 (concat groups ++ tail))
      as (buf1 & Hrun & Hlen1 & Hd1 & Ht1); [lia|lia|done|done|].
    destruct (IH Hgs fuel buf1 (p + 4)%nat (byte + 3)%nat (vlen + 3) stop tail)
      as (buf2 & Hrun2 & Hlen2 & Hd2 & Ht2); [lia|lia|done|].
    exists buf2.
    replace (p + 4 * S (length groups))%nat
      with (p + 4 + 4 * length groups)%nat by lia.
    replace (byte + 3 * S (length groups))%nat
      with (byte + 3 + 3 * length groups)%nat by lia.
    replace (vlen + 3 * Z.of_nat (S (length groups)))
      with (vlen + 3 + 3 * Z.of_nat (length groups)) by lia.
    change (S (length groups) + fuel)%nat with (S (length groups + fuel)).
    rewrite Hrun, Hrun2. split; [done|]. split; [congruence|]. split; [done|].
    rewrite Ht2, Ht1. cbn [map concat group_bytes_of].
    by rewrite <- app_assoc.
Qed.

(** X4.  The base64 text is decoded in place, over itself, and still
    every group gives the three bytes computed from its own four
    characters; a final group with ['='] in the third or in the fourth
    position gives the first one or the first two of them. *)
Theorem b64_decode_in_place :
  (forall groups,
     forallb is_full_group groups = true ->
     b64_decode (concat groups) =
       Some (concat (map group_bytes_of groups),
             3 * Z.of_nat (length groups))) /\
  (forall groups c0 c1 rest,
     forallb is_full_group groups = true ->
     bad_b64_char c0 = false -> bad_b64_char c1 = false ->
     b64_decode (concat groups ++ c0 :: c1 :: EQUALS :: rest) =
       Some (concat (map group_bytes_of groups)
             ++ [byte0 (nibble c0) (nibble c1)],
             3 * Z.of_nat (length groups) + 1)) /\
  (forall groups c0 c1 c2 rest,
     forallb is_full_group groups = true ->
     bad_b64_char c0 = false -> bad_b64_char c1 = false ->
     bad_b64_char c2 = false -> c2 <> EQUALS ->
     b64_decode (concat groups ++ c0 :: c1 :: c2 :: EQUALS :: rest) =
       Some (concat (map group_bytes_of groups)
             ++ [byte0 (nibble c0) (nibble c1); byte1 (nibble c1) (nibble c2)],
             3 * Z.of_nat (length groups) + 2)).
Proof.
  split; [|split].
  - intros groups Hall. unfold b64_decode.
    pose proof (full_groups_length groups Hall) as Hlen.
    rewrite c_str_id by (by apply full_groups_no_nul). rewrite Hlen.
    replace (S (4 * length groups))
      with (length groups + S (3 * length groups))%nat by lia.
    destruct (b64_loop_groups_bytes groups Hall (S (3 * length groups))
                (concat groups) 0 0 0 (4 * length groups) [])
      as (buf' & Hrun' & Hl' & Hd' & Ht'); [lia|lia|by rewrite app_nil_r|].
    rewrite Hrun'. cbn [b64_loop]. rewrite Nat.ltb_irrefl.
    rewrite Z.add_0_l. f_equal. f_equal.
    replace (Z.to_nat (3 * Z.of_nat (length groups)))
      with (0 + 3 * length groups)%nat by lia.
    by rewrite Ht'.
  - intros groups c0 c1 rest Hall B0 B1. unfold b64_decode.
    pose proof (full_groups_length groups Hall) as Hlen.
    pose proof (bad_b64_char_nul _ B0) as N0.
    rewrite c_str_app by (by apply full_groups_no_nul).
    rewrite length_app, Hlen, c_str_cons by done. cbn [length].
    set (stop := (4 * length groups + S (length (c_str (c1 :: EQUALS :: rest))))%nat).
    replace (S stop) with (length groups + S (stop - length groups))%nat by lia.
    destruct (b64_loop_groups_bytes groups Hall (S (stop - length groups))
                (concat groups ++ c0 :: c1 :: EQUALS :: rest) 0 0 0 stop
                (c0 :: c1 :: EQUALS :: rest))
      as (buf & Hrun & Hl & Hd & Ht); [lia|lia|done|].
    rewrite Hrun.
    destruct (b64_loop_break1 (stop - length groups) buf (0 + 4 * length groups)
                (0 + 3 * length groups) (0 + 3 * Z.of_nat (length groups)) stop
                c0 c1 rest)
      as (buf' & Hrun' & Hl' & Ht'); [lia|lia|done|done|done|].
    rewrite Hrun'. rewrite Z.add_0_l. f_equal. f_equal.
    replace (Z.to_nat (3 * Z.of_nat (length groups) + 1))
      with (0 + 3 * length groups + 1)%nat by lia.
    by rewrite Ht', Ht.
  - intros groups c0 c1 c2 rest Hall B0 B1 B2 E2. unfold b64_decode.
    pose proof (full_groups_length groups Hall) as Hlen.
    pose proof (bad_b64_char_nul _ B0) as N0.
    rewrite c_str_app by (by apply full_groups_no_nul).
    rewrite length_app, Hlen, c_str_cons by done. cbn [length].
    set (stop := (4 * length groups
                  + S (length (c_str (c1 :: c2 :: EQUALS :: rest))))%nat).
    replace (S stop) with (length groups + S (stop - length groups))%nat by lia.
    destruct (b64_loop_groups_bytes groups Hall (S (stop - length groups))
                (concat groups ++ c0 :: c1 :: c2 :: EQUALS :: rest) 0 0 0 stop
                (c0 :: c1 :: c2 :: EQUALS :: rest))
      as (buf & Hrun & Hl & Hd & Ht); [lia|lia|done|].
    rewrite Hrun.
    destruct (b64_loop_break2 (stop - length groups) buf (0 + 4 * length groups)
                (0 + 3 * length groups) (0 + 3 * Z.of_nat (length groups)) stop
                c0 c1 c2 rest)
      as (buf' & Hrun' & Hl' & Ht'); [lia|lia|done|done|done|done|done|].
    rewrite Hrun'. rewrite Z.add_0_l. f_equal. f_equal.
    replace (Z.to_nat (3 * Z.of_nat (length groups) + 2))
      with (0 + 3 * length groups + 2)%nat by lia.
    by rewrite Ht', Ht.
Qed.

Lemma b64_decode_in_place_witness :
  b64_decode (concat [bytes_of "Sm9o"; bytes_of "biBE"]) =
    Some (concat (map group_bytes_of [bytes_of "Sm9o"; bytes_of "biBE"]),
          3 * Z.of_nat (length [bytes_of "Sm9o"; bytes_of "biBE"])) /\
  b64_decode (concat [bytes_of "Sm9o"] ++ 83 :: 103 :: EQUALS :: bytes_of "=") =
    Some (concat (map group_bytes_of [bytes_of "Sm9o"])
          ++ [byte0 (nibble 83) (nibble 103)],
          3 * Z.of_nat (length [bytes_of "Sm9o"]) + 1).
Proof.
  destruct b64_decode_in_place as (H0 & H1 & _). split.
  - apply H0. reflexivity.
  - apply H1; reflexivity.
Defined.

(** The first failing round answers for the whole loop. *)
Lemma b64_loop_bad fuel buf p byte vlen stop :
  (p < stop)%nat ->
  bad_b64_char (rd buf p) || bad_b64_char (rd buf (p + 1))
    || bad_b64_char (rd buf (p + 2)) = true ->
  b64_loop (S fuel) buf p byte vlen stop = None.
Proof.
  intros Hp Hbad. cbn [b64_loop]. apply Nat.ltb_lt in Hp as ->.
  unfold b64_group. by rewrite Hbad.
Qed.

(** X5.  After any number of full groups, a character that is neither of
    the alphabet nor ['='] in one of the first three positions of a group
    makes the base64 block fail, and so does a text that ends after the
    first or the second character of a group. *)
Theorem b64_decode_rejects :
  (forall groups c0 c1 c2 rest,
     forallb is_full_group groups = true -> c0 <> NUL ->
     bad_b64_char c0 || bad_b64_char c1 || bad_b64_char c2 = true ->
     b64_decode (concat groups ++ c0 :: c1 :: c2 :: rest) = None) /\
  (forall groups c0,
     forallb is_full_group groups = true -> c0 <> NUL ->
     b64_decode (concat groups ++ [c0]) = None) /\
  (forall groups c0 c1,
     forallb is_full_group groups = true -> c0 <> NUL ->
     b64_decode (concat groups ++ [c0; c1]) = None).
Proof.
  assert (forall groups c0 tail,
            forallb is_full_group groups = true -> c0 <> NUL ->
            bad_b64_char c0 || bad_b64_char (rd tail 0)
              || bad_b64_char (rd tail 1) = true ->
            b64_decode (concat groups ++ c0 :: tail) = None) as H.
  { intros groups c0 tail Hall N0 Hbad. unfold b64_decode.
    pose proof (full_groups_length groups Hall) as Hlen.
    rewrite c_str_app by (by apply full_groups_no_nul).
    rewrite length_app, Hlen, c_str_cons by done. cbn [length].
    set (stop := (4 * length groups + S (length (c_str tail)))%nat).
    replace (S stop) with (length groups + S (stop - length groups))%nat by lia.
    destruct (b64_loop_groups groups Hall (S (stop - length groups))
                (concat groups ++ c0 :: tail) 0 0 0 stop (c0 :: tail))
      as (buf & Hrun & Hl & Hd); [lia|lia|done|].
    rewrite Hrun. rewrite b64_loop_bad; [done|lia|].
    apply drop_cons_inv in Hd as (R0 & Hd & _).
    replace (S (0 + 4 * length groups)) with (0 + 4 * length groups + 1)%nat
      in Hd by lia.
    rewrite R0.
    assert (rd buf (0 + 4 * length groups + 1) = rd tail 0) as ->.
    { unfold rd. replace (0 + 4 * length groups + 1)%nat
        with (0 + 4 * length groups + 1 + 0)%nat by lia.
      by rewrite <- lookup_drop, Hd. }
    assert (rd buf (0 + 4 * length groups + 2) = rd tail 1) as ->.
    { unfold rd. replace (0 + 4 * length groups + 2)%nat
        with (0 + 4 * length groups + 1 + 1)%nat by lia.
      by rewrite <- lookup_drop, Hd. }
    done. }
  split; [|split].
  - intros groups c0 c1 c2 rest Hall N0 Hbad. by apply H.
  - intros groups c0 Hall N0. apply H; [done|done|].
    change (rd [] 0) with NUL. by rewrite orb_true_r.
  - intros groups c0 c1 Hall N0. apply H; [done|done|].
    change (rd [c1] 1) with NUL. by rewrite orb_true_r.
Qed.

Lemma b64_decode_rejects_witness :
  b64_decode (concat [bytes_of "Sm9o"] ++ 98 :: 33 :: 66 :: bytes_of "E") = None /\
  b64_decode (concat [bytes_of "Sm9o"] ++ [98]) = None /\
  b64_decode (concat [bytes_of "Sm9o"] ++ [98; 105]) = None.
Proof.
  destruct b64_decode_rejects as (H0 & H1 & H2). split; [|split].
  - apply H0; [reflexivity|discriminate|reflexivity].
  - apply H1; [reflexivity|discriminate].
  - apply H2; [reflexivity|discriminate].
Defined.

(** X6.  For four characters of the alphabet, with the indices [n0],
    [n1], [n2], [n3], the bytes stored by a round are those of base64:
    [n0 * 4 + n1 / 16], [(n1 mod 16) * 16 + n2 / 4] and
    [(n2 mod 4) * 64 + n3]; the sign of [char] does not show. *)
Theorem group_bytes_standard n0 n1 n2 n3 :
  0 <= n0 < 64 -> 0 <= n1 < 64 -> 0 <= n2 < 64 -> 0 <= n3 < 64 ->
  group_bytes (tbl nib2b64 n0) (tbl nib2b64 n1) (tbl nib2b64 n2)
              (tbl nib2b64 n3) =
    [n0 * 4 + n1 / 16; n1 mod 16 * 16 + n2 / 4; n2 mod 4 * 64 + n3] /\
  is_full_group [tbl nib2b64 n0; tbl nib2b64 n1; tbl nib2b64 n2;
                 tbl nib2b64 n3] = true.
Proof.
  intros H0 H1 H2 H3. split.
  - unfold group_bytes. rewrite !nibble_digit by done.
    unfold byte0, byte1, byte1_first, byte2, byte2_first, RIGHT4, RIGHT2.
    change 0x0f with (Z.ones 4). change 0x03 with (Z.ones 2).
    rewrite !Z.land_ones, !Z.shiftl_mul_pow2, !Z.shiftr_div_pow2 by lia.
    rewrite !store_or; [done|auto| | |auto| | |auto| |];
      change (2 ^ 2) with 4; change (2 ^ 4) with 16; change (2 ^ 6) with 64;
      Z.div_mod_to_equations; lia.
  - destruct (digit_ok_spec _ (digit_ok_tbl _ H0)) as (B0 & _).
    destruct (digit_ok_spec _ (digit_ok_tbl _ H1)) as (B1 & _).
    destruct (digit_ok_spec _ (digit_ok_tbl _ H2)) as (B2 & E2 & _).
    destruct (digit_ok_spec _ (digit_ok_tbl _ H3)) as (_ & E3 & N3 & _).
    unfold is_full_group. rewrite B0, B1, B2.
    apply Z.eqb_neq in E2, E3, N3. by rewrite E2, E3, N3.
Qed.

Lemma group_bytes_standard_witness :
  group_bytes (tbl nib2b64 18) (tbl nib2b64 38) (tbl nib2b64 61)
              (tbl nib2b64 40) =
    [18 * 4 + 38 / 16; 38 mod 16 * 16 + 61 / 4; 61 mod 4 * 64 + 40] /\
  is_full_group [tbl nib2b64 18; tbl nib2b64 38; tbl nib2b64 61;
                 tbl nib2b64 40] = true.
Proof. apply (group_bytes_standard 18 38 61 40); lia. Defined.

(** ** The line joiner *)

Lemma getline_scan_inv s :
  (NEWLINE ∉ (getline_scan s).1) /\
  (forall x, x ∈ (getline_scan s).1 -> x ∈ s \/ x = CONTINUED_LINE_MARKER) /\
  match (getline_scan s).2 with
  | Some r => (length (getline_scan s).1 + 1 + length r)%nat = length s
  | None => length (getline_scan s).1 = length s
  end.
Proof.
  assert (forall n s, (length s <= n)%nat ->
    (NEWLINE ∉ (getline_scan s).1) /\
    (forall x, x ∈ (getline_scan s).1 -> x ∈ s \/ x = CONTINUED_LINE_MARKER) /\
    match (getline_scan s).2 with
    | Some r => (length (getline_scan s).1 + 1 + length r)%nat = length s
    | None => length (getline_scan s).1 = length s
    end) as H.
  { induction n as [|n IH]; intros s0 Hn.
    - destruct s0; [|simpl in Hn; lia]. simpl.
      split; [apply not_elem_of_nil|]. split; [|done]. by intros x ?%elem_of_nil.
    - destruct s0 as [|c tl].
      { simpl. split; [apply not_elem_of_nil|]. split; [|done].
        by intros x ?%elem_of_nil. }
      cbn [getline_scan]. destruct (Z.eqb_spec c NEWLINE) as [->|Hc].
      + destruct tl as [|c' tl'].
        { simpl. split; [apply not_elem_of_nil|]. split; [|done].
          by intros x ?%elem_of_nil. }
        destruct (ISSPACE c' && negb (c' =? NEWLINE)).
        * destruct (IH tl' ltac:(simpl in Hn; lia)) as (I1 & I2 & I3).
          destruct (getline_scan tl') as [l r]. cbn [fst snd] in *.
          split; [|split].
          -- rewrite !not_elem_of_cons. done.
          -- intros x. rewrite !elem_of_cons.
             intros [->|[->|Hx]]; [by right|by right|].
             destruct (I2 x Hx) as [?|?]; [left|by right]. by do 2 right.
          -- destruct r; cbn [length] in *; lia.
        * cbn [fst snd length]. split; [apply not_elem_of_nil|].
          split; [by intros x ?%elem_of_nil|lia].
      + destruct (IH tl ltac:(simpl in Hn; lia)) as (I1 & I2 & I3).
        destruct (getline_scan tl) as [l r]. cbn [fst snd] in *.
        split; [|split].
        * by apply not_elem_of_cons.
        * intros x. rewrite !elem_of_cons.
          intros [->|Hx]; [left; by left|].
          destruct (I2 x Hx) as [?|?]; [left; by right|by right].
        * destruct r; cbn [length] in *; lia. }
  by apply (H (length s)).
Qed.

(** X7.  The logical line returned by [str_getline] is not empty and
    holds neither a newline nor a NUL; the joining is done in place: the
    line has as many bytes as the physical lines it was made of, fold
    bytes included, and with the newline that ends it and the bytes left
    for the next call it fills the buffer. *)
Theorem str_getline_line mem line next :
  str_getline (Some mem) = Some (line, next) ->
  line <> [] /\ (NEWLINE ∉ line) /\ (NUL ∉ line) /\
  match next with
  | Some r => (length line + 1 + length r)%nat = length (c_str mem)
  | None => length line = length (c_str mem)
  end.
Proof.
  unfold str_getline. pose proof (c_str_nul_free mem) as Hnul.
  destruct (c_str mem) as [|c s] eqn:Hs; [done|].
  destruct (Z.eqb_spec c NEWLINE) as [|Hc]; [done|].
  intros H0.
  assert (getline_scan (c :: s) = (line, next)) as H by congruence.
  pose proof (getline_scan_inv (c :: s)) as (I1 & I2 & I3).
  rewrite H in I1, I2, I3. cbn [fst snd] in *.
  split; [|split; [done|split; [|done]]].
  - intros ->. cbn [getline_scan] in H.
    destruct (Z.eqb_spec c NEWLINE); [done|].
    by destruct (getline_scan s).
  - intros Hin. destruct (I2 _ Hin) as [?|?]; done.
Qed.

Lemma str_getline_line_witness :
  bytes_of "a" ++ [CONTINUED_LINE_MARKER; CONTINUED_LINE_MARKER] ++ bytes_of "b" <> [] /\
  (NEWLINE ∉ bytes_of "a" ++ [CONTINUED_LINE_MARKER; CONTINUED_LINE_MARKER] ++ bytes_of "b") /\
  (NUL ∉ bytes_of "a" ++ [CONTINUED_LINE_MARKER; CONTINUED_LINE_MARKER] ++ bytes_of "b") /\
  (length (bytes_of "a" ++ [CONTINUED_LINE_MARKER; CONTINUED_LINE_MARKER] ++ bytes_of "b") + 1 + length (bytes_of "c: d"))%nat
    = length (c_str (bytes_of "a" ++ [NEWLINE; SPACE] ++ bytes_of "b" ++ [NEWLINE]
                     ++ bytes_of "c: d")).
Proof.
  apply (str_getline_line
           (bytes_of "a" ++ [NEWLINE; SPACE] ++ bytes_of "b" ++ [NEWLINE]
            ++ bytes_of "c: d")
           (bytes_of "a" ++ [CONTINUED_LINE_MARKER; CONTINUED_LINE_MARKER] ++ bytes_of "b") (Some (bytes_of "c: d"))).
  reflexivity.
Defined.

(** ** The bytes of a fragment *)

Lemma put_type_and_value_Forall (P : Z -> Prop) t val :
  Forall P (c_str t) -> P COLON -> P SPACE -> P NEWLINE -> P EQUALS ->
  (forall c, c ∈ nib2b64 -> P c) -> (forall c, printable c = true -> P c) ->
  Forall P (put_type_and_value t val).
Proof.
  intros Ht Hc Hs Hn He Hd Hp.
  destruct (uses_base64 t val) eqn:Hb.
  - rewrite (put_type_and_value_b64 t val Hb). cbv zeta.
    apply Forall_app_2; [done|]. apply Forall_app_2; [by repeat constructor|].
    apply Forall_app_2.
    + apply Forall_take, fold_stream_Forall; [done|done|].
      eapply Forall_impl; [apply b64_raw_alphabet|]. done.
    + apply Forall_app_2; [by apply Forall_replicate|by repeat constructor].
  - rewrite (put_type_and_value_plain t val Hb).
    rewrite uses_base64_spec in Hb. apply orb_false_elim in Hb as [_ Hb].
    apply negb_false_iff in Hb.
    apply Forall_app_2; [done|]. apply Forall_app_2; [by repeat constructor|].
    apply Forall_app_2; [|by repeat constructor].
    apply fold_stream_Forall; [done|done|].
    apply Forall_forall. intros x Hx%list_elem_of_In.
    rewrite forallb_forall in Hb. by apply Hp, Hb.
Qed.

(** X8.  Whatever the bytes of the value, the fragment of a printable
    type holds printable ASCII characters and newlines only; in
    particular it holds no NUL, so that the C string returned by
    [ldif_type_and_value] is the whole fragment. *)
Theorem fragment_is_printable t val :
  Forall (fun c => isprint c = true) (c_str t) ->
  Forall (fun c => isprint c = true \/ c = NEWLINE) (put_type_and_value t val) /\
  c_str (put_type_and_value t val) = put_type_and_value t val.
Proof.
  intros Ht.
  assert (Forall (fun c => isprint c = true \/ c = NEWLINE)
            (put_type_and_value t val)) as H.
  { apply put_type_and_value_Forall; auto.
    - eapply Forall_impl; [exact Ht|]. auto.
    - intros c Hc. left. by apply (alphabet_forall isprint).
    - intros c [_ Hc]%andb_true_iff. auto. }
  split; [done|]. apply c_str_id. apply not_elem_of_Forall.
  eapply Forall_impl; [exact H|]. intros c [Hc| ->]; [|done].
  intros ->. done.
Qed.

Lemma fragment_is_printable_witness :
  Forall (fun c => isprint c = true \/ c = NEWLINE)
    (put_type_and_value (bytes_of "jpegPhoto") [255; 0; 10; 1]) /\
  c_str (put_type_and_value (bytes_of "jpegPhoto") [255; 0; 10; 1]) =
    put_type_and_value (bytes_of "jpegPhoto") [255; 0; 10; 1].
Proof.
  apply (fragment_is_printable (bytes_of "jpegPhoto") [255; 0; 10; 1]).
  repeat constructor.
Defined.

(** ** Fragments in sequence *)

Lemma getline_scan_append s l rest :
  getline_scan s = (l, Some []) ->
  match rest with
  | c :: _ => ISSPACE c && negb (c =? NEWLINE) = false
  | [] => True
  end ->
  getline_scan (s ++ rest) = (l, Some rest).
Proof.
  intros Hs Hrest. revert l Hs.
  assert (forall n s, (length s <= n)%nat -> forall l,
            getline_scan s = (l, Some []) ->
            getline_scan (s ++ rest) = (l, Some rest)) as H.
  { induction n as [|n IH]; intros s0 Hn l Hs.
    - destruct s0; [done|simpl in Hn; lia].
    - destruct s0 as [|c tl]; [done|]. cbn [app getline_scan] in *.
      destruct (c =? NEWLINE).
      + destruct tl as [|c' tl']; cbn [app].
        * injection Hs as <-. destruct rest as [|r rest']; [done|].
          by rewrite Hrest.
        * destruct (ISSPACE c' && negb (c' =? NEWLINE)); [|done].
          destruct (getline_scan tl') as [l1 r1] eqn:E1.
          injection Hs as <- ->.
          by rewrite (IH tl' ltac:(simpl in Hn; lia) l1 E1).
      + destruct (getline_scan tl) as [l1 r1] eqn:E1.
        injection Hs as <- ->.
        by rewrite (IH tl ltac:(simpl in Hn; lia) l1 E1). }
  intros l Hs. by apply (H (length s)).
Qed.

(** The logical line of a fragment, and what is left after it. *)
Lemma fragment_line t val :
  valid_type t = true -> Forall is_byte val -> val <> [] ->
  pad_on_fold t val = false ->
  exists line f,
    getline_scan (put_type_and_value t val) = (line, Some []) /\
    str_parse_line line = ParseOk t val (Z.of_nat (length val)) /\
    put_type_and_value t val = t ++ f.
Proof.
  intros Ht Hbytes Hne Hclash.
  assert (decode_fragment (put_type_and_value t val) =
            Some (ParseOk t val (Z.of_nat (length val)))) as Hdec.
  { destruct (uses_base64 t val) eqn:Hb;
      [by apply round_trip_b64|by apply round_trip_plain]. }
  pose proof (valid_type_spec t Ht) as (c & l & Heq & _ & Hcn & Hnul & _).
  assert (exists sep len cs,
            put_type_and_value t val = t ++ sep ++ fold_stream len cs ++ [NEWLINE]
            /\ (NUL ∉ sep) /\ (NEWLINE ∉ sep) /\ (NUL ∉ cs) /\ (NEWLINE ∉ cs))
    as (sep & len & cs & Hfrag & S0 & S1 & C0 & C1).
  { destruct (uses_base64 t val) eqn:Hb.
    - rewrite (put_type_and_value_b64_text t val Hb Hclash), (c_str_id t) by done.
      eexists _, _, _. split; [reflexivity|].
      repeat split;
        try (rewrite !not_elem_of_cons; repeat split; try done;
             apply not_elem_of_nil).
      all: intros Hin%b64_text_digit_ok; tauto.
    - rewrite (put_type_and_value_plain t val Hb), (c_str_id t) by done.
      eexists _, _, _. split; [reflexivity|].
      rewrite uses_base64_spec in Hb. apply orb_false_elim in Hb as [_ Hp].
      apply negb_false_iff in Hp.
      assert (forall x, x ∈ val -> 32 <= x <= 126) as Hx.
      { intros x Hin%list_elem_of_In. rewrite forallb_forall in Hp.
        by apply printable_spec, Hp. }
      repeat split;
        try (rewrite !not_elem_of_cons; repeat split; try done;
             apply not_elem_of_nil).
      all: intros Hin%Hx; unfold NUL, NEWLINE in *; lia. }
  pose proof (str_getline_fragment t sep len cs Ht S0 S1 C0 C1) as Hline.
  rewrite <- Hfrag in Hline.
  unfold decode_fragment in Hdec. rewrite Hline in Hdec.
  exists (t ++ sep ++ mark_stream len cs), (sep ++ fold_stream len cs ++ [NEWLINE]).
  split; [|split; [congruence|done]].
  unfold str_getline in Hline.
  destruct (c_str (put_type_and_value t val)) as [|c0 s0] eqn:Hc; [done|].
  destruct (c0 =? NEWLINE); [done|].
  rewrite <- Hc in Hline. rewrite c_str_id in Hline; [congruence|].
  rewrite Hfrag, !not_elem_of_app. repeat split; try done.
  - apply not_elem_of_Forall, fold_stream_Forall; [done|done|].
    by apply not_elem_of_Forall.
  - apply not_elem_of_cons. split; [done|apply not_elem_of_nil].
Qed.

(** X9.  Fragments written one after the other are read back one after
    the other: on a buffer that starts with an encoded fragment
    [str_getline] returns the logical line of that fragment, which
    [str_parse_line] splits into the type, the value and its length, and
    leaves the pointer on the byte that follows the fragment, when that
    byte is not a white space character other than a newline. *)
Theorem fragments_in_sequence t val rest :
  valid_type t = true -> Forall is_byte val -> val <> [] ->
  pad_on_fold t val = false ->
  NUL ∉ rest ->
  (forall c, head rest = Some c -> ISSPACE c = false \/ c = NEWLINE) ->
  exists line,
    str_getline (Some (put_type_and_value t val ++ rest)) =
      Some (line, Some rest) /\
    str_parse_line line = ParseOk t val (Z.of_nat (length val)).
Proof.
  intros Ht Hbytes Hne Hclash Hnul Hhead.
  destruct (fragment_line t val Ht Hbytes Hne Hclash)
    as (line & f0 & Hscan & Hparse & Hstart).
  exists line. split; [|done].
  pose proof (valid_type_spec t Ht) as (c & l & Heq & _ & Hcn & Ht0 & _).
  assert (NUL ∉ put_type_and_value t val) as Hf0.
  { apply not_elem_of_Forall, put_type_and_value_Forall; try done.
    - rewrite c_str_id by done. by apply not_elem_of_Forall.
    - intros x Hx ->. by apply (alphabet_forall (fun c => negb (c =? NUL))) in Hx.
    - intros x Hx%printable_spec ->. unfold NUL in Hx. lia. }
  unfold str_getline.
  rewrite c_str_id by (rewrite not_elem_of_app; done).
  assert (exists f, put_type_and_value t val = c :: f) as [f Hf].
  { rewrite Hstart, Heq. cbn [app]. eauto. }
  rewrite Hf. cbn [app]. destruct (Z.eqb_spec c NEWLINE); [done|].
  change (c :: f ++ rest) with ((c :: f) ++ rest). rewrite <- Hf.
  rewrite (getline_scan_append _ line rest Hscan); [done|].
  destruct rest as [|r rest']; [done|].
  destruct (Hhead r eq_refl) as [-> | ->]; [done|].
  by rewrite Z.eqb_refl, andb_false_r.
Qed.

Lemma fragments_in_sequence_witness :
  exists line,
    str_getline (Some (put_type_and_value (bytes_of "cn") (bytes_of "John Doe")
                       ++ bytes_of "mail: jd@example.org")) =
      Some (line, Some (bytes_of "mail: jd@example.org")) /\
    str_parse_line line =
      ParseOk (bytes_of "cn") (bytes_of "John Doe")
        (Z.of_nat (length (bytes_of "John Doe"))).
Proof.
  apply (fragments_in_sequence (bytes_of "cn") (bytes_of "John Doe")
           (bytes_of "mail: jd@example.org")).
  - reflexivity.
  - repeat constructor; unfold is_byte; simpl; lia.
  - discriminate.
  - reflexivity.
  - apply (bool_decide_unpack _). vm_compute. exact I.
  - intros c H. injection H as <-. left. reflexivity.
Defined.

(** ** The physical lines of a fragment *)

Lemma physical_lines_app_nl a b :
  NEWLINE ∉ a -> physical_lines (a ++ NEWLINE :: b) = a :: physical_lines b.
Proof.
  induction a as [|c a IH]; intros Hn.
  - cbn [app physical_lines]. by rewrite Z.eqb_refl.
  - apply not_elem_of_cons in Hn as [Hc Ha].
    cbn [app physical_lines]. destruct (Z.eqb_spec c NEWLINE); [done|].
    by rewrite IH.
Qed.

(** The lines of one output loop that starts in column [len] behind the
    [acc] bytes of the current line: the first line goes on from [acc],
    the others start with the fold space, and the lines without the fold
    spaces are the characters stored. *)
Lemma lines_of_fold_stream cs :
  NEWLINE ∉ cs ->
  forall acc len d,
    NEWLINE ∉ acc -> 0 <= d -> Z.of_nat (length acc) <= len + d ->
    exists tl ls,
      physical_lines (acc ++ fold_stream len cs ++ [NEWLINE]) = (acc ++ tl) :: ls /\
      Z.of_nat (length (acc ++ tl)) <= Z.max (Z.of_nat (length acc)) (77 + d) /\
      Forall (fun l => head l = Some SPACE /\ Z.of_nat (length l) <= 77) ls /\
      tl ++ concat (map (drop 1) ls) = cs.
Proof.
  induction cs as [|c cs IH]; intros Hcs acc len d Hacc Hd Hlen.
  - exists [], []. cbn [fold_stream app]. rewrite app_nil_r.
    rewrite physical_lines_app_nl by done. repeat split; try done. lia.
  - apply not_elem_of_cons in Hcs as [Hc Hcs]. cbn [fold_stream].
    unfold LDIF_LINE_WIDTH. destruct (Z.gtb_spec len 76).
    + destruct (IH Hcs [SPACE; c] 2 0) as (tl & ls & Hl & Hb & Hf & Hu);
        [|lia|simpl; lia|].
      { rewrite !not_elem_of_cons. repeat split; try done. apply not_elem_of_nil. }
      exists [], (([SPACE; c] ++ tl) :: ls).
      change ((NEWLINE :: SPACE :: c :: fold_stream 2 cs) ++ [NEWLINE])
        with (NEWLINE :: [SPACE; c] ++ fold_stream 2 cs ++ [NEWLINE]).
      rewrite physical_lines_app_nl by done. rewrite Hl, app_nil_r.
      repeat split; try done; [lia| |].
      * constructor; [|done]. split; [done|].
        cbn [app length] in Hb |- *. lia.
      * cbn [map concat app drop]. by rewrite Hu.
    + destruct (IH Hcs (acc ++ [c]) (len + 1) d) as (tl & ls & Hl & Hb & Hf & Hu);
        [|lia|rewrite length_app; simpl; lia|].
      { rewrite not_elem_of_app, not_elem_of_cons. repeat split; try done.
        apply not_elem_of_nil. }
      exists (c :: tl), ls.
      replace (acc ++ (c :: fold_stream (len + 1) cs) ++ [NEWLINE])
        with ((acc ++ [c]) ++ fold_stream (len + 1) cs ++ [NEWLINE])
        by (by rewrite <- !app_assoc).
      rewrite Hl. rewrite <- !app_assoc. cbn [app].
      repeat split; try done.
      * rewrite <- app_assoc in Hb. cbn [app] in Hb.
        rewrite !length_app in Hb. rewrite length_app.
        cbn [length] in Hb |- *. lia.
      * cbn [app]. by rewrite Hu.
Qed.

(** The lengths of the lines depend on the places of the newlines
    only. *)
Lemma physical_lines_lengths s s' :
  Forall2 (fun a b => (a =? NEWLINE) = (b =? NEWLINE)) s s' ->
  map length (physical_lines s) = map length (physical_lines s').
Proof.
  induction 1 as [|a b s s' Hab _ IH]; [done|].
  cbn [physical_lines]. rewrite <- Hab. destruct (a =? NEWLINE).
  - cbn [map]. by rewrite IH.
  - destruct (physical_lines s) as [|l ls], (physical_lines s') as [|l' ls'];
      simpl in *; congruence.
Qed.

Lemma fold_stream_tail len cs k :
  NEWLINE ∉ cs -> (k <= 2)%nat ->
  Forall (fun c => c <> NEWLINE)
    (drop (length (fold_stream len cs) - k) (fold_stream len cs)).
Proof.
  intros Hcs Hk.
  destruct cs as [|y cs _] using rev_ind; [by destruct k|].
  apply not_elem_of_app in Hcs as [Hcs Hy]. apply not_elem_of_cons in Hy as [Hy _].
  rewrite fold_stream_snoc.
  destruct k as [|[|[|k]]]; [| | |lia].
  - rewrite Nat.sub_0_r, drop_all. constructor.
  - rewrite app_assoc, length_app. cbn [length].
    replace (length (fold_stream len cs ++
               (if fold_len len (length cs) >? LDIF_LINE_WIDTH
                then [NEWLINE; SPACE] else [])) + 1 - 1)%nat
      with (length (fold_stream len cs ++
               (if fold_len len (length cs) >? LDIF_LINE_WIDTH
                then [NEWLINE; SPACE] else []))) by lia.
    rewrite drop_app_length. by repeat constructor.
  - destruct (fold_len len (length cs) >? LDIF_LINE_WIDTH).
    + replace (fold_stream len cs ++ [NEWLINE; SPACE] ++ [y])
        with ((fold_stream len cs ++ [NEWLINE]) ++ [SPACE; y])
        by (by rewrite <- !app_assoc).
      rewrite length_app. cbn [length].
      replace (length (fold_stream len cs ++ [NEWLINE]) + 2 - 2)%nat
        with (length (fold_stream len cs ++ [NEWLINE])) by lia.
      rewrite drop_app_length. by repeat constructor.
    + cbn [app].
      destruct cs as [|x cs _] using rev_ind.
      * cbn. by repeat constructor.
      * apply not_elem_of_app in Hcs as [Hcs Hx].
        apply not_elem_of_cons in Hx as [Hx _].
        rewrite fold_stream_snoc.
        set (pre := fold_stream len cs ++
                    (if fold_len len (length cs) >? LDIF_LINE_WIDTH
                     then [NEWLINE; SPACE] else [])).
        replace ((fold_stream len cs ++
                  (if fold_len len (length cs) >? LDIF_LINE_WIDTH
                   then [NEWLINE; SPACE] else []) ++ [x]) ++ [y])
          with (pre ++ [x; y]) by (unfold pre; by rewrite <- !app_assoc).
        rewrite length_app. cbn [length].
        replace (length pre + 2 - 2)%nat with (length pre) by lia.
        rewrite drop_app_length. by repeat constructor.
Qed.

Lemma Forall_length_le (ls ls' : list (list Z)) n :
  map length ls' = map length ls ->
  Forall (fun l => Z.of_nat (length l) <= n) ls ->
  Forall (fun l => Z.of_nat (length l) <= n) ls'.
Proof.
  revert ls. induction ls' as [|l' ls' IH]; intros ls Hmap Hls; [constructor|].
  destruct ls as [|l ls]; [done|]. cbn [map] in Hmap. injection Hmap as Hh Htl.
  apply Forall_cons in Hls as [Hl Hls].
  constructor; [lia|by apply (IH ls)].
Qed.

(** X10.  For a type without a newline, every physical line of the
    fragment after the first has at most 77 columns, the fold space
    included, and the first one at most 78, or the length of the type
    and 3 if that is more; this holds on both paths and wherever the
    padding falls. *)
Theorem line_lengths t val :
  NEWLINE ∉ c_str t ->
  exists l0 ls,
    physical_lines (put_type_and_value t val) = l0 :: ls /\
    Z.of_nat (length l0) <= Z.max (Z.of_nat (length (c_str t)) + 3) 78 /\
    Forall (fun l => Z.of_nat (length l) <= 77) ls.
Proof.
  intros Ht.
  assert (forall sep cs len d,
            NEWLINE ∉ sep -> NEWLINE ∉ cs -> 0 <= d <= 1 ->
            Z.of_nat (length (c_str t ++ sep)) = len + d ->
            len + d <= Z.of_nat (length (c_str t)) + 3 ->
            exists (l0 : list Z) (ls : list (list Z)),
              map length (physical_lines
                            ((c_str t ++ sep) ++ fold_stream len cs ++ [NEWLINE]))
                = map length (l0 :: ls) /\
              Z.of_nat (length l0) <= Z.max (Z.of_nat (length (c_str t)) + 3) 78 /\
              Forall (fun l => Z.of_nat (length l) <= 77) ls) as Hlines.
  { intros sep cs len d Hsep Hcs Hd Hlen Hle.
    destruct (lines_of_fold_stream cs Hcs (c_str t ++ sep) len d)
      as (tl & ls & Hl & Hb & Hf & _); [by rewrite not_elem_of_app|lia|lia|].
    exists ((c_str t ++ sep) ++ tl), ls. rewrite Hl. split; [done|]. split; [lia|].
    eapply Forall_impl; [exact Hf|]. by intros l [_ ?]. }
  assert (forall s (l0 : list Z) (ls : list (list Z)),
            map length (physical_lines s) = map length (l0 :: ls) ->
            Z.of_nat (length l0) <= Z.max (Z.of_nat (length (c_str t)) + 3) 78 ->
            Forall (fun l => Z.of_nat (length l) <= 77) ls ->
            exists l0' ls',
              physical_lines s = l0' :: ls' /\
              Z.of_nat (length l0') <= Z.max (Z.of_nat (length (c_str t)) + 3) 78 /\
              Forall (fun l => Z.of_nat (length l) <= 77) ls') as Hback.
  { intros s l0 ls Hmap H0 Hls.
    destruct (physical_lines s) as [|l0' ls']; [done|].
    cbn [map] in Hmap. injection Hmap as Hh Htl.
    exists l0', ls'. split; [done|]. split; [lia|].
    by apply (Forall_length_le ls). }
  destruct (uses_base64 t val) eqn:Hb.
  - rewrite (put_type_and_value_b64 t val Hb). cbv zeta.
    set (len := Z.of_nat (length (c_str t)) + 3).
    set (stream := fold_stream len (b64_raw val)).
    set (pad := pad_count (length val)).
    assert (NEWLINE ∉ b64_raw val) as Hraw.
    { apply not_elem_of_Forall. eapply Forall_impl; [apply b64_raw_alphabet|].
      intros x Hx ->.
      by apply (alphabet_forall (fun c => negb (c =? NEWLINE))) in Hx. }
    destruct (Hlines [COLON; COLON; SPACE] (b64_raw val) len 0)
      as (l0 & ls & Hmap & H0 & Hls); [|done|lia| |unfold len; lia|].
    { rewrite !not_elem_of_cons. repeat split; try done. apply not_elem_of_nil. }
    { rewrite length_app. unfold len. simpl. lia. }
    apply (Hback _ l0 ls); [|done|done]. rewrite <- Hmap.
    apply physical_lines_lengths.
    rewrite <- (app_assoc (c_str t)). apply Forall2_app.
    { apply Forall_Forall2_diag, Forall_forall. done. }
    apply Forall2_app.
    { apply Forall_Forall2_diag, Forall_forall. done. }
    fold stream. rewrite !app_assoc.
    apply Forall2_app; [|by repeat constructor].
    rewrite <- (take_drop (length stream - pad) stream) at 3.
    apply Forall2_app.
    { apply Forall_Forall2_diag, Forall_forall. done. }
    pose proof (pad_le_stream len val) as Hp. fold stream pad in Hp.
    assert (pad <= 2)%nat as Hp2.
    { unfold pad, pad_count. destruct (length val mod 3)%nat as [|[|?]]; lia. }
    pose proof (fold_stream_tail len (b64_raw val) pad Hraw Hp2) as Htail.
    fold stream in Htail.
    apply Forall2_same_length_lookup. split.
    { rewrite length_replicate, length_drop. lia. }
    intros i x y Hx Hy. apply lookup_replicate in Hx as [-> _].
    rewrite Forall_forall in Htail. apply list_elem_of_lookup_2, Htail in Hy.
    destruct (Z.eqb_spec y NEWLINE); done.
  - rewrite (put_type_and_value_plain t val Hb).
    rewrite uses_base64_spec in Hb. apply orb_false_elim in Hb as [_ Hp].
    apply negb_false_iff in Hp.
    assert (NEWLINE ∉ val) as Hval.
    { intros Hin%list_elem_of_In. rewrite forallb_forall in Hp.
      apply Hp, printable_spec in Hin. unfold NEWLINE in Hin. lia. }
    destruct (Hlines [COLON; SPACE] val (Z.of_nat (length (c_str t)) + 1) 1)
      as (l0 & ls & Hmap & H0 & Hls); [|done|lia| |lia|].
    { rewrite !not_elem_of_cons. repeat split; try done. apply not_elem_of_nil. }
    { rewrite length_app. simpl. lia. }
    apply (Hback _ l0 ls); [|done|done]. rewrite <- Hmap.
    by rewrite <- !app_assoc.
Qed.

Lemma line_lengths_witness :
  exists l0 ls,
    physical_lines (put_type_and_value (bytes_of "uid") (replicate 52 255))
      = l0 :: ls /\
    Z.of_nat (length l0) <= Z.max (Z.of_nat (length (c_str (bytes_of "uid"))) + 3) 78 /\
    Forall (fun l => Z.of_nat (length l) <= 77) ls.
Proof.
  apply (line_lengths (bytes_of "uid") (replicate 52 255)).
  apply (bool_decide_unpack _). vm_compute. exact I.
Defined.

(** X11.  Where the padding does not meet a fold, the folding is
    lossless: the fragment has at least one physical line, every line
    after the first begins with the fold space, and the first line
    followed by the other lines without their first byte is the type,
    the separator and the payload, that is the value on the plain path
    and its base64 text on the other. *)
Theorem folding_law t val :
  NEWLINE ∉ c_str t -> pad_on_fold t val = false ->
  exists l0 ls,
    physical_lines (put_type_and_value t val) = l0 :: ls /\
    Forall (fun l => head l = Some SPACE) ls /\
    l0 ++ concat (map (drop 1) ls) =
      c_str t ++
      (if uses_base64 t val then [COLON; COLON; SPACE] ++ b64_text val
       else [COLON; SPACE] ++ val).
Proof.
  intros Ht Hclash.
  assert (forall sep cs len,
            NEWLINE ∉ sep -> NEWLINE ∉ cs ->
            Z.of_nat (length (c_str t ++ sep)) <= len + 1 ->
            exists l0 ls,
              physical_lines (c_str t ++ sep ++ fold_stream len cs ++ [NEWLINE])
                = l0 :: ls /\
              Forall (fun l => head l = Some SPACE) ls /\
              l0 ++ concat (map (drop 1) ls) = c_str t ++ sep ++ cs) as Hlines.
  { intros sep cs len Hsep Hcs Hlen.
    destruct (lines_of_fold_stream cs Hcs (c_str t ++ sep) len 1)
      as (tl & ls & Hl & _ & Hf & Hu); [by rewrite not_elem_of_app|lia|lia|].
    exists ((c_str t ++ sep) ++ tl), ls. rewrite <- app_assoc in Hl.
    rewrite Hl. split; [done|]. split.
    - eapply Forall_impl; [exact Hf|]. by intros l [? _].
    - by rewrite <- !app_assoc, Hu. }
  destruct (uses_base64 t val) eqn:Hb.
  - rewrite (put_type_and_value_b64_text t val Hb Hclash).
    apply Hlines.
    + rewrite !not_elem_of_cons. repeat split; try done. apply not_elem_of_nil.
    + intros Hin%b64_text_digit_ok. tauto.
    + rewrite length_app. simpl. lia.
  - rewrite (put_type_and_value_plain t val Hb).
    rewrite uses_base64_spec in Hb. apply orb_false_elim in Hb as [_ Hp].
    apply negb_false_iff in Hp.
    apply Hlines.
    + rewrite !not_elem_of_cons. repeat split; try done. apply not_elem_of_nil.
    + intros Hin%list_elem_of_In. rewrite forallb_forall in Hp.
      apply Hp, printable_spec in Hin. unfold NEWLINE in Hin. lia.
    + rewrite length_app. simpl. lia.
Qed.

Lemma folding_law_witness :
  exists l0 ls,
    physical_lines (put_type_and_value (bytes_of "cn") (replicate 200 255))
      = l0 :: ls /\
    Forall (fun l => head l = Some SPACE) ls /\
    l0 ++ concat (map (drop 1) ls) =
      c_str (bytes_of "cn") ++
      (if uses_base64 (bytes_of "cn") (replicate 200 255)
       then [COLON; COLON; SPACE] ++ b64_text (replicate 200 255)
       else [COLON; SPACE] ++ replicate 200 255).
Proof.
  apply (folding_law (bytes_of "cn") (replicate 200 255)).
  - apply (bool_decide_unpack _). vm_compute. exact I.
  - vm_compute. reflexivity.
Defined.

Lemma fold_stream_short len cs :
  len + Z.of_nat (length cs) <= 77 -> fold_stream len cs = cs.
Proof.
  revert len. induction cs as [|c cs IH]; intros len Hlen; [done|].
  cbn [fold_stream length] in *. unfold LDIF_LINE_WIDTH.
  destruct (Z.gtb_spec len 76); [lia|]. rewrite IH; [done|lia].
Qed.

Lemma fold_len_le len n : 1 <= len -> fold_len len n <= len + Z.of_nat n.
Proof.
  intros H. pose proof (fold_count_bound len n H). lia.
Qed.

(** X12.  A value that fits on the first line is not folded: on the
    plain path, when the type and the value have at most 76 bytes
    together, the fragment is the type, a colon, a space, the value and
    a newline; on the base64 path, when the type and the base64 text have
    at most 74, it is the type, two colons, a space, the base64 text and
    a newline. *)
Theorem short_values_on_one_line t val :
  (uses_base64 t val = false ->
   Z.of_nat (length (c_str t)) + Z.of_nat (length val) <= 76 ->
   put_type_and_value t val = c_str t ++ [COLON; SPACE] ++ val ++ [NEWLINE]) /\
  (uses_base64 t val = true ->
   Z.of_nat (length (c_str t)) + Z.of_nat (length (b64_text val)) <= 74 ->
   put_type_and_value t val =
     c_str t ++ [COLON; COLON; SPACE] ++ b64_text val ++ [NEWLINE]).
Proof.
  split.
  - intros Hb Hlen. rewrite (put_type_and_value_plain t val Hb).
    rewrite fold_stream_short by lia. done.
  - intros Hb Hlen.
    assert (pad_on_fold t val = false) as Hclash.
    { unfold pad_on_fold. rewrite Hb. cbn [andb].
      destruct (Nat.eqb_spec (pad_count (length val)) 2) as [Hp|]; [|done].
      pose proof (pad_le_raw val) as Hraw.
      cbn [andb]. unfold LDIF_LINE_WIDTH.
      pose proof (fold_len_le (Z.of_nat (length (c_str t)) + 3)
                    (length (b64_raw val) - 1) ltac:(lia)) as Hf.
      rewrite b64_text_length, <- b64_raw_length in Hlen.
      destruct (Z.gtb_spec (fold_len (Z.of_nat (length (c_str t)) + 3)
                              (length (b64_raw val) - 1)) 76); [lia|done]. }
    rewrite (put_type_and_value_b64_text t val Hb Hclash).
    rewrite fold_stream_short by lia. done.
Qed.

Lemma short_values_on_one_line_witness :
  put_type_and_value (bytes_of "cn") (bytes_of "John Doe") =
    c_str (bytes_of "cn") ++ [COLON; SPACE] ++ bytes_of "John Doe" ++ [NEWLINE] /\
  put_type_and_value (bytes_of "cn") [255; 0] =
    c_str (bytes_of "cn") ++ [COLON; COLON; SPACE] ++ b64_text [255; 0]
    ++ [NEWLINE].
Proof.
  split.
  - apply (proj1 (short_values_on_one_line (bytes_of "cn") (bytes_of "John Doe")));
      [reflexivity|vm_compute; discriminate].
  - apply (proj2 (short_values_on_one_line (bytes_of "cn") [255; 0]));
      [reflexivity|vm_compute; discriminate].
Defined.

(** ** The test of [ldif_type_and_value] *)

Lemma to_int_range z : INT_MIN <= to_int z <= INT_MAX.
Proof.
  unfold to_int, INT_MIN, INT_MAX.
  pose proof (Z.mod_pos_bound (z + 2 ^ 31) (2 ^ 32) ltac:(lia)). lia.
Qed.

(** X13.  The test at line 334 makes [ldif_type_and_value] return NULL
    for one value of [LDIF_SIZE_NEEDED] only, which is -1; for every
    other value, negative ones included, [malloc] is called, with the
    value converted to [size_t], plus one. *)
Theorem bufsize_test tlen vlen :
  (ldif_bufsize tlen vlen = None <-> LDIF_SIZE_NEEDED tlen vlen = -1) /\
  (LDIF_SIZE_NEEDED tlen vlen <> -1 ->
   ldif_bufsize tlen vlen =
     Some (to_size_t (LDIF_SIZE_NEEDED tlen vlen) + 1)).
Proof.
  assert (INT_MIN <= LDIF_SIZE_NEEDED tlen vlen <= INT_MAX) as Hr.
  { unfold LDIF_SIZE_NEEDED, int_add at 1. apply to_int_range. }
  unfold ldif_bufsize, to_size_t, INT_MIN, INT_MAX in *.
  set (n := LDIF_SIZE_NEEDED tlen vlen) in *.
  change (2 ^ 64) with 18446744073709551616.
  change (2 ^ 31) with 2147483648 in Hr.
  destruct (Z.eq_dec n (-1)) as [->|Hn].
  - split; [done|done].
  - assert (n mod 18446744073709551616 + 1 < 18446744073709551616) as Hlt.
    { Z.div_mod_to_equations. lia. }
    pose proof (Z.mod_pos_bound n 18446744073709551616 ltac:(lia)) as Hm.
    rewrite (Z.mod_small (n mod 18446744073709551616 + 1)) by lia.
    destruct (Z.leb_spec (n mod 18446744073709551616 + 1)
                         (n mod 18446744073709551616)); [lia|].
    split; [split; [done|done]|done].
Qed.

Lemma bufsize_test_witness :
  ldif_bufsize 2 8 = Some (to_size_t (LDIF_SIZE_NEEDED 2 8) + 1).
Proof. apply (proj2 (bufsize_test 2 8)). vm_compute. discriminate. Defined.

(** * The header fields of --add-email *)

Lemma count_fields_S fl k : count_fields fl (S k) = S (count_fields fl k).
Proof.
  revert k. induction fl as [|c fl IH]; intros k; simpl; [done|].
  destruct (c =? COMMA); by rewrite IH.
Qed.

Lemma join_fields_cons x f :
  f <> [] -> join_fields (x :: f) = x ++ COMMA :: join_fields f.
Proof. by destruct f. Qed.

(** What the second loop makes of the rest of the string. *)
Lemma split_fields_ok fl :
  forall cur done f,
    COMMA ∉ cur -> split_fields fl cur done = Fields f ->
    exists f',
      f = done ++ f' /\ join_fields f' = cur ++ fl /\ f' <> [] /\
      Forall (fun x => x <> [] /\ COMMA ∉ x) f' /\
      length f' = count_fields fl 1.
Proof.
  induction fl as [|c fl IH]; intros cur done f Hcur Hrun.
  - cbn [split_fields] in Hrun. destruct cur as [|c0 cur]; [done|].
    injection Hrun as <-. exists [c0 :: cur]. rewrite app_nil_r.
    repeat split; try done. by repeat constructor.
  - cbn [split_fields] in Hrun. destruct (Z.eqb_spec c COMMA) as [->|Hc].
    + destruct cur as [|c0 cur]; [done|].
      apply IH in Hrun as (f' & -> & Hj & Hne & Hall & Hlen);
        [|apply not_elem_of_nil].
      exists ((c0 :: cur) :: f'). rewrite <- app_assoc. split; [done|].
      rewrite (join_fields_cons _ f' Hne), Hj. repeat split; try done.
      * constructor; [|done]. done.
      * cbn [length count_fields]. rewrite Z.eqb_refl, count_fields_S. lia.
    + apply IH in Hrun as (f' & -> & Hj & Hne & Hall & Hlen).
      2:{ rewrite not_elem_of_app, not_elem_of_cons. repeat split; try done.
          apply not_elem_of_nil. }
      exists f'. split; [done|]. rewrite Hj, <- app_assoc. repeat split; try done.
      cbn [count_fields]. by destruct (Z.eqb_spec c COMMA).
Qed.


Lemma elem_join_fields x fi f : fi ∈ f -> x ∈ fi -> x ∈ join_fields f.
Proof.
  induction f as [|fj f IH]; [by intros ?%elem_of_nil|].
  destruct f as [|fk f].
  - intros ->%list_elem_of_singleton. done.
  - rewrite join_fields_cons by done.
    intros [->|Hin]%elem_of_cons Hx; apply elem_of_app; [by left|].
    right. right. by apply IH.
Qed.

(** X14.  When [set_email_fields] returns, the array it leaves holds at
    least one string, no string is empty, holds a comma or a NUL, the
    strings joined with commas are the argument, and there are as many
    of them as [fieldcount] counted, so that they and the final NULL fill
    the [fieldcount + 1] pointers allocated. *)
Theorem set_email_fields_splits fl f :
  set_email_fields fl = Fields f ->
  f <> [] /\ join_fields f = c_str fl /\
  Forall (fun x => x <> [] /\ (COMMA ∉ x) /\ (NUL ∉ x)) f /\
  length f = count_fields (c_str fl) 1.
Proof.
  unfold set_email_fields. pose proof (c_str_nul_free fl) as Hnul.
  destruct (c_str fl) as [|c s] eqn:Hs; [done|].
  intros (f' & -> & Hj & Hne & Hall & Hlen)%split_fields_ok;
    [|apply not_elem_of_nil].
  cbn [app] in *. repeat split; try done.
  apply Forall_forall. intros x Hx. rewrite Forall_forall in Hall.
  destruct (Hall x Hx) as [H1 H2]. repeat split; try done.
  intros H0. apply Hnul. rewrite <- Hj. by apply (elem_join_fields _ x).
Qed.

Lemma set_email_fields_splits_witness :
  [bytes_of "from"; bytes_of "to"] <> [] /\
  join_fields [bytes_of "from"; bytes_of "to"] = c_str (bytes_of "from,to") /\
  Forall (fun x => x <> [] /\ (COMMA ∉ x) /\ (NUL ∉ x))
    [bytes_of "from"; bytes_of "to"] /\
  length [bytes_of "from"; bytes_of "to"] =
    count_fields (c_str (bytes_of "from,to")) 1.
Proof.
  apply (set_email_fields_splits (bytes_of "from,to")
           [bytes_of "from"; bytes_of "to"]).
  reflexivity.
Defined.




(** ** Header lines and [mailaddr_prefix] *)

Lemma tolower_NUL c : tolower c = tolower NUL -> c = NUL.
Proof.
  unfold tolower, NUL.
  destruct (Z.leb_spec 65 c), (Z.leb_spec c 90); simpl; lia.
Qed.

Lemma tolower_COLON c : tolower c = COLON -> c = COLON.
Proof.
  unfold tolower, COLON.
  destruct (Z.leb_spec 65 c), (Z.leb_spec c 90); simpl; lia.
Qed.

Lemma strncasecmp_eq_spec fi :
  NUL ∉ fi ->
  forall line,
    strncasecmp_eq fi line (length fi) = true <->
    exists name rest, line = name ++ rest /\
                      map tolower name = map tolower fi.
Proof.
  induction fi as [|c fi IH]; intros Hnul line.
  - split; [|done]. intros _. by exists [], line.
  - apply not_elem_of_cons in Hnul as [Hc Hnul].
    cbn [length strncasecmp_eq]. change (rd (c :: fi) 0) with c.
    destruct (Z.eqb_spec c NUL) as [|_]; [done|].
    destruct line as [|d line].
    + change (rd [] 0) with NUL.
      destruct (Z.eqb_spec (tolower c) (tolower NUL)) as [E|_].
      * by apply tolower_NUL in E.
      * split; [done|]. intros (name & rest & Heq & Hmap).
        symmetry in Heq. apply app_eq_nil in Heq as [-> _]. done.
    + change (rd (d :: line) 0) with d.
      destruct (Z.eqb_spec (tolower c) (tolower d)) as [E|E].
      * change (drop 1 (c :: fi)) with fi. change (drop 1 (d :: line)) with line.
        rewrite (IH Hnul line). split.
        -- intros (name & rest & -> & Hmap). exists (d :: name), rest.
           split; [done|]. cbn [map]. by rewrite E, Hmap.
        -- intros (name & rest & Heq & Hmap). destruct name as [|d' name]; [done|].
           injection Heq as <- ->. injection Hmap as _ Hmap. by exists name, rest.
      * split; [done|]. intros (name & rest & Heq & Hmap).
        destruct name as [|d' name]; [done|].
        injection Heq as <- ->. injection Hmap as Hmap _. done.
Qed.

Lemma rd_app_length (a : list Z) c b : rd (a ++ c :: b) (length a) = c.
Proof. unfold rd. by rewrite list_lookup_middle. Qed.

Lemma drop_app_S (a : list Z) c b : drop (length a + 1) (a ++ c :: b) = b.
Proof.
  rewrite Nat.add_1_r. change (a ++ c :: b) with (a ++ [c] ++ b).
  rewrite app_assoc. rewrite drop_app_length'; [done|].
  rewrite length_app. cbn [length]. lia.
Qed.

(** The test of [mailaddr_prefix] on one field. *)
Lemma match_field fi line :
  NUL ∉ fi ->
  strncasecmp_eq fi line (length fi) && (rd line (length fi) =? COLON) = true
  <-> exists name,
        line = name ++ COLON :: drop (length fi + 1) line /\
        map tolower name = map tolower fi.
Proof.
  intros Hnul. rewrite andb_true_iff, (strncasecmp_eq_spec fi Hnul line). split.
  - intros [(name & rest & -> & Hmap) Hc].
    assert (length name = length fi) as Hlen.
    { by rewrite <- (length_map tolower name), Hmap, length_map. }
    rewrite <- Hlen in Hc. destruct rest as [|c rest].
    + rewrite app_nil_r in Hc. unfold rd in Hc.
      rewrite lookup_ge_None_2 in Hc by lia. done.
    + rewrite rd_app_length in Hc. apply Z.eqb_eq in Hc as ->.
      exists name. by rewrite <- Hlen, drop_app_S.
  - intros (name & Heq & Hmap).
    assert (length name = length fi) as Hlen.
    { by rewrite <- (length_map tolower name), Hmap, length_map. }
    split.
    + by exists name, (COLON :: drop (length fi + 1) line).
    + rewrite Heq, <- Hlen, rd_app_length. done.
Qed.

Lemma map_tolower_not_elem x name fi :
  (forall c, tolower c = x -> c = x) -> tolower x = x ->
  x ∉ fi -> map tolower name = map tolower fi -> x ∉ name.
Proof.
  intros Hinj Hx. revert fi. induction name as [|c name IH]; intros fi Hfi Hmap.
  - apply not_elem_of_nil.
  - destruct fi as [|d fi]; [done|]. injection Hmap as Hc Hmap.
    apply not_elem_of_cons in Hfi as [Hd Hfi]. apply not_elem_of_cons. split.
    + intros ->. rewrite Hx in Hc. symmetry in Hc. by apply Hinj in Hc.
    + by apply (IH fi).
Qed.

Lemma split_at_first (x : Z) a a' b b' :
  x ∉ a -> x ∉ a' -> a ++ x :: b = a' ++ x :: b' -> a = a' /\ b = b'.
Proof.
  revert a'. induction a as [|c a IH]; intros a' Ha Ha' Heq.
  - destruct a' as [|c' a']; [by injection Heq as ->|].
    injection Heq as <- _. by apply not_elem_of_cons in Ha' as [? _].
  - apply not_elem_of_cons in Ha as [Hc Ha]. destruct a' as [|c' a'].
    + by injection Heq as -> _.
    + injection Heq as <- Heq. apply not_elem_of_cons in Ha' as [_ Ha'].
      destruct (IH a' Ha Ha' Heq) as [-> ->]. done.
Qed.

(** X16.  What [mailaddr_prefix] returns for a header line, given the
    strings of [email_fields]: a pointer, when the line starts with one of
    the fields, in letters of either case, and a colon, and then the
    pointer is just after that colon; NULL when the line starts with no
    field followed by a colon. *)
Theorem mailaddr_prefix_spec f line :
  Forall (fun x => NUL ∉ x) f ->
  match mailaddr_prefix f line with
  | Some rest =>
      exists fi name,
        fi ∈ f /\ line = name ++ COLON :: rest /\
        map tolower name = map tolower fi
  | None =>
      forall fi name rest,
        fi ∈ f -> line = name ++ COLON :: rest ->
        map tolower name <> map tolower fi
  end.
Proof.
  induction f as [|fj f IH]; intros Hall.
  - cbn [mailaddr_prefix]. by intros fi name rest ?%elem_of_nil.
  - apply Forall_cons in Hall as [Hj Hall]. cbn [mailaddr_prefix].
    destruct (strncasecmp_eq fj line (length fj) &&
              (rd line (length fj) =? COLON)) eqn:E.
    + apply (match_field fj line Hj) in E as (name & Heq & Hmap).
      exists fj, name. split; [left|done].
    + specialize (IH Hall). destruct (mailaddr_prefix f line) as [rest|].
      * destruct IH as (fi & name & Hin & Heq & Hmap).
        exists fi, name. split; [by right|done].
      * intros fi name rest [->|Hin]%elem_of_cons Heq Hmap;
          [|by apply (IH fi name rest)].
        apply not_true_iff_false in E. apply E, (match_field fj line Hj).
        assert (length name = length fj) as Hlen.
        { by rewrite <- (length_map tolower name), Hmap, length_map. }
        exists name. split; [|done].
        by rewrite Heq at 2; rewrite <- Hlen, drop_app_S.
Qed.

Lemma mailaddr_prefix_spec_witness :
  exists fi name,
    fi ∈ [bytes_of "from"; bytes_of "reply-to"] /\
    bytes_of "Reply-To: a@b" = name ++ COLON :: bytes_of " a@b" /\
    map tolower name = map tolower fi.
Proof.
  apply (mailaddr_prefix_spec [bytes_of "from"; bytes_of "reply-to"]
           (bytes_of "Reply-To: a@b")).
  apply (bool_decide_unpack _). vm_compute. exact I.
Defined.

(** X17.  With fields that hold no colon, a header line whose name is one
    of the fields, in letters of either case, is recognised whatever
    follows, and the pointer returned is at the byte after the first
    colon of the line. *)
Theorem mailaddr_prefix_header f fi name rest :
  Forall (fun x => (NUL ∉ x) /\ (COLON ∉ x)) f ->
  fi ∈ f -> map tolower name = map tolower fi ->
  mailaddr_prefix f (name ++ COLON :: rest) = Some rest.
Proof.
  intros Hall Hin Hmap.
  assert (COLON ∉ name) as Hname.
  { rewrite Forall_forall in Hall. destruct (Hall fi Hin) as [_ Hc].
    by apply (map_tolower_not_elem COLON name fi tolower_COLON). }
  induction f as [|fj f IH]; [by apply elem_of_nil in Hin|].
  apply Forall_cons in Hall as [[Hj Hcj] Hall]. cbn [mailaddr_prefix].
  destruct (strncasecmp_eq fj (name ++ COLON :: rest) (length fj) &&
            (rd (name ++ COLON :: rest) (length fj) =? COLON)) eqn:E.
  - apply (match_field fj _ Hj) in E as (name' & Heq & Hmap').
    assert (COLON ∉ name') as Hname'.
    { by apply (map_tolower_not_elem COLON name' fj tolower_COLON). }
    apply split_at_first in Heq as [_ Heq]; [|done|done]. by rewrite <- Heq.
  - apply elem_of_cons in Hin as [->|Hin]; [|by apply IH].
    apply not_true_iff_false in E. destruct E. apply (match_field fj _ Hj).
    assert (length name = length fj) as Hlen.
    { by rewrite <- (length_map tolower name), Hmap, length_map. }
    exists name. split; [|done]. by rewrite <- Hlen, drop_app_S.
Qed.

Lemma mailaddr_prefix_header_witness :
  mailaddr_prefix default_email_fields (bytes_of "FROM" ++ COLON :: bytes_of " a@b, c@d")
  = Some (bytes_of " a@b, c@d").
Proof.
  apply (mailaddr_prefix_header default_email_fields (bytes_of "from")).
  - apply (bool_decide_unpack _). vm_compute. exact I.
  - left.
  - reflexivity.
Defined.

(** ** The address list of a header line *)

Lemma skip_blanks_app x c r :
  isspace (char_of c) = false ->
  skip_blanks (x ++ c :: r) = skip_blanks x ++ c :: r.
Proof.
  intros Hc. induction x as [|d x IH]; cbn [app skip_blanks].
  - by rewrite Hc.
  - by destruct (isspace (char_of d)).
Qed.

Lemma skip_blanks_elem c x : c ∈ skip_blanks x -> c ∈ x.
Proof.
  induction x as [|d x IH]; cbn [skip_blanks]; [done|].
  destruct (isspace (char_of d)); [|done]. intros ?%IH. by right.
Qed.

Lemma cut_at_comma_app x r :
  COMMA ∉ x -> cut_at_comma (x ++ COMMA :: r) = (x, Some r).
Proof.
  induction x as [|c x IH]; intros Hx; cbn [app cut_at_comma].
  - by rewrite Z.eqb_refl.
  - apply not_elem_of_cons in Hx as [Hc Hx].
    destruct (Z.eqb_spec c COMMA); [congruence|]. by rewrite IH.
Qed.

Lemma cut_at_comma_none x : COMMA ∉ x -> cut_at_comma x = (x, None).
Proof.
  induction x as [|c x IH]; intros Hx; cbn [cut_at_comma]; [done|].
  apply not_elem_of_cons in Hx as [Hc Hx].
  destruct (Z.eqb_spec c COMMA); [congruence|]. by rewrite IH.
Qed.

Lemma join_fields_snoc x f last :
  join_fields ((x :: f) ++ [last]) = x ++ COMMA :: join_fields (f ++ [last]).
Proof. cbn [app]. apply join_fields_cons. by destruct f. Qed.

(** X18.  The loop of [add_email_list] hands to [getname] the pieces of
    the line between its commas, each from its first byte that is no
    white space, an empty or blank piece included; only a last piece that
    is empty or blank ends the loop without a call.  One turn for each
    byte of the line is enough. *)
Theorem add_email_list_items f last fuel :
  Forall (fun x => COMMA ∉ x) f -> COMMA ∉ last ->
  (length (join_fields (f ++ [last])) < fuel)%nat ->
  add_email_list fuel (Some (join_fields (f ++ [last]))) =
    map skip_blanks f ++
    match skip_blanks last with [] => [] | x => [x] end.
Proof.
  intros Hall Hlast. revert fuel.
  induction f as [|x f IH]; intros fuel Hfuel.
  - cbn [app join_fields map] in *.
    destruct fuel as [|fuel]; [lia|]. cbn [add_email_list].
    destruct (skip_blanks last) as [|c l] eqn:E; [done|].
    rewrite cut_at_comma_none.
    + by destruct fuel.
    + rewrite <- E. intros ?%skip_blanks_elem. done.
  - apply Forall_cons in Hall as [Hx Hall].
    rewrite join_fields_snoc in *. rewrite length_app in Hfuel.
    cbn [length] in Hfuel.
    destruct fuel as [|fuel]; [lia|]. cbn [add_email_list].
    rewrite skip_blanks_app by done.
    destruct (skip_blanks x ++ COMMA :: join_fields (f ++ [last]))
      as [|c l] eqn:E; [by destruct (skip_blanks x)|].
    rewrite <- E, cut_at_comma_app.
    + cbn [map app]. f_equal. apply IH; [done|lia].
    + intros ?%skip_blanks_elem. done.
Qed.

Lemma add_email_list_items_witness :
  add_email_items (bytes_of "a@b, ,c@d, ") =
    [bytes_of "a@b"; []; bytes_of "c@d"].
Proof.
  apply (add_email_list_items
           [bytes_of "a@b"; bytes_of " "; bytes_of "c@d"] (bytes_of " ") 12).
  - apply (bool_decide_unpack _). vm_compute. exact I.
  - apply (bool_decide_unpack _). vm_compute. exact I.
  - apply Nat.ltb_lt. reflexivity.
Defined.
